(** * Rigidification of a deformable object (sofagym/envs/Maze/rigidification.py)

    A shallow embedding of [Rigidify] and of its local helper [mfilter].
    Python values are modelled as follows:
    - an index is an integer ([Z]); list indexing follows Python, a negative
      index counts from the end and an index out of range raises [IndexError];
    - a coordinate or an angle is a rational ([Q]), the exact counterpart of
      the floats of the source;
    - the dictionary [Kd] is an association list in insertion order;
    - the scene graph touched by the function (the target node, the source
      object and the message log) is an explicit state, threaded through a
      state and exception monad. *)

From Stdlib Require Import String ZArith QArith Qabs List Bool Lia Permutation.
Import ListNotations.


(** ** Python values and exceptions *)

Inductive exn : Type :=
| AssertionError
| NotImplementedError
| IndexError
| TypeError
| AttributeError
| EmptyInputError.

Inductive result (A : Type) : Type :=
| Ok (a : A)
| Raise (e : exn).

Arguments Ok {A} a.
Arguments Raise {A} e.

Module Py.

(** [l[i]]. *)
Definition getitem {A : Type} (l : list A) (i : Z) : result A :=
  let n := Z.of_nat (length l) in
  let j := if (i <? 0)%Z then (i + n)%Z else i in
  if ((j <? 0)%Z || (n <=? j)%Z)%bool then Raise IndexError
  else match nth_error l (Z.to_nat j) with
       | Some a => Ok a
       | None => Raise IndexError
       end.

(** [i in l]. *)
Definition contains (i : Z) (l : list Z) : bool :=
  existsb (Z.eqb i) l.

(** [enumerate(l)]. *)
Definition enumerate {A : Type} (l : list A) : list (nat * A) :=
  combine (seq 0 (length l)) l.

(** [range(n)]. *)
Definition range (n : nat) : list Z :=
  map Z.of_nat (seq 0 n).

(** [[a[i] for i in idx]]. *)
Fixpoint getitems {A : Type} (a : list A) (idx : list Z) : result (list A) :=
  match idx with
  | [] => Ok []
  | i :: idx' =>
      match getitem a i with
      | Raise e => Raise e
      | Ok x =>
          match getitems a idx' with
          | Raise e => Raise e
          | Ok xs => Ok (x :: xs)
          end
      end
  end.

(** A dictionary keyed by integers, in insertion order. A value of [Kd]
    is [None] or a list of integers. *)
Definition dict : Type := list (Z * option (list Z)).

(** [d[k] = v]: an existing key keeps its place. *)
Fixpoint setitem (k : Z) (v : option (list Z)) (d : dict) : dict :=
  match d with
  | [] => [(k, v)]
  | (k', v') :: d' =>
      if (k =? k')%Z then (k', v) :: d' else (k', v') :: setitem k v d'
  end.

(** [{v: f k v for k, v in enumerate(l)}]. *)
Definition comprehension (f : nat -> Z -> option (list Z)) (l : list Z) : dict :=
  fold_left (fun d kv => setitem (snd kv) (f (fst kv) (snd kv)) d)
            (enumerate l) [].

(** [d.update(d')]. *)
Definition update (d d' : dict) : dict :=
  fold_left (fun acc kv => setitem (fst kv) (snd kv) acc) d' d.

(** [d.values()]. *)
Definition values (d : dict) : list (option (list Z)) := map snd d.

Definition keys (d : dict) : list Z := map fst d.

(** [d.get(k)]. *)
Fixpoint get (k : Z) (d : dict) : option (option (list Z)) :=
  match d with
  | [] => None
  | (k', v) :: d' => if (k =? k')%Z then Some v else get k d'
  end.

(** [[v for kv in vals for v in kv]]: iterating [None] is a type error. *)
Fixpoint flatten (vals : list (option (list Z))) : result (list Z) :=
  match vals with
  | [] => Ok []
  | None :: _ => Raise TypeError
  | Some kv :: vals' =>
      match flatten vals' with
      | Raise e => Raise e
      | Ok r => Ok (kv ++ r)
      end
  end.

End Py.

(** ** What the function takes from outside

    [createFromEuler] is [splib3.numerics.Quat.createFromEuler] called with
    [inDegree=True]. [list_set_difference a b] is [list(set(a) - set(b))]:
    Python fixes which elements the list holds, each once, and leaves their
    order to the implementation of [set]. *)

Record Runtime : Type := {
  createFromEuler : list Q -> list Q;
  list_set_difference : list Z -> list Z -> list Z;
  list_set_difference_NoDup :
    forall a b, NoDup (list_set_difference a b);
  list_set_difference_In :
    forall a b x, In x (list_set_difference a b) <-> In x a /\ ~ In x b
}.

(** ** Points *)

Record Vec3 : Type := mkVec3 { vx : Q; vy : Q; vz : Q }.

Definition Vec3_list (p : Vec3) : list Q := [vx p; vy p; vz p].

Definition Vec3_add (p q : Vec3) : Vec3 :=
  mkVec3 (vx p + vx q) (vy p + vy q) (vz p + vz q).

Definition Vec3_sum (pts : list Vec3) : Vec3 :=
  fold_left Vec3_add pts (mkVec3 0 0 0).

(** Modelled from the spec: [getBarycenter] is called by [Rigidify] and is
    neither defined nor imported in rigidification.py. The spec (4.1) gives
    its contract: the arithmetic mean of the coordinates, and
    [EmptyInputError] on an empty sequence. *)
Definition getBarycenter (pts : list Vec3) : result Vec3 :=
  match pts with
  | [] => Raise EmptyInputError
  | _ :: _ =>
      let n := inject_Z (Z.of_nat (length pts)) in
      let s := Vec3_sum pts in
      Ok (mkVec3 (vx s / n) (vy s / n) (vz s / n))
  end.

(** ** The scene *)

Inductive message : Type :=
| msg_warning (text : string)
| msg_error (text : string).

(** The node [ero] and what is added below it: the positions of
    DeformableParts/dofs, of RigidParts/dofs and of
    RigidParts/RigidifiedParticules/dofs, the [rigidIndexPerPoint] of the
    RigidMapping, and whether the coupling node was attached below the two
    particle nodes. *)
Record Node : Type := {
  node_name : string;
  DeformableParts : option (list Vec3);
  RigidParts : option (list (list Q));
  RigidifiedParticules : option (list Vec3);
  rigidIndexPerPoint : option (list nat);
  coupling_attached : bool
}.

(** The source object: its name, its container (positions and point
    indices), its degrees of freedom, the three components the function
    removes, and the index pairs of the SubsetMultiMapping objects it
    received. *)
Record SourceObject : Type := {
  name_value : string;
  container_position : list Vec3;
  container_points : list Z;
  dofs_position : list Vec3;
  solver : bool;
  integration : bool;
  LinearSolverConstraintCorrection : bool;
  mappings : list (list Z)
}.

Record Scene : Type := {
  messages : list message;
  targetObject : list Node;
  sourceObject : SourceObject
}.

(** ** State and exception monad *)

Definition M (A : Type) : Type := Scene -> Scene * result A.

Definition ret {A : Type} (a : A) : M A := fun s => (s, Ok a).

Definition raise {A : Type} (e : exn) : M A := fun s => (s, Raise e).

Definition bind {A B : Type} (m : M A) (k : A -> M B) : M B :=
  fun s =>
    match m s with
    | (s', Ok a) => k a s'
    | (s', Raise e) => (s', Raise e)
    end.

Declare Scope py_scope.
Delimit Scope py_scope with py.
Notation "x <- m ;; k" := (bind m (fun x => k))
  (at level 61, m at next level, right associativity) : py_scope.
Notation "m ;;; k" := (bind m (fun _ => k))
  (at level 61, right associativity) : py_scope.

Definition lift {A : Type} (r : result A) : M A := fun s => (s, r).

Definition get_source : M SourceObject := fun s => (s, Ok (sourceObject s)).

Definition emit (m : message) : M unit :=
  fun s => ({| messages := messages s ++ [m];
               targetObject := targetObject s;
               sourceObject := sourceObject s |}, Ok tt).

Definition set_source (f : SourceObject -> SourceObject) : M unit :=
  fun s => ({| messages := messages s;
               targetObject := targetObject s;
               sourceObject := f (sourceObject s) |}, Ok tt).

(** [targetObject.addChild(name)]. *)
Definition addChild (name : string) : M unit :=
  fun s => ({| messages := messages s;
               targetObject := targetObject s ++
                 [{| node_name := name;
                     DeformableParts := None;
                     RigidParts := None;
                     RigidifiedParticules := None;
                     rigidIndexPerPoint := None;
                     coupling_attached := false |}];
               sourceObject := sourceObject s |}, Ok tt).

Fixpoint update_last {A : Type} (f : A -> A) (l : list A) : list A :=
  match l with
  | [] => []
  | [a] => [f a]
  | a :: l' => a :: update_last f l'
  end.

(** [ero] is the child added last to the target: what is added below [ero]
    shows in the target. *)
Definition modify_ero (f : Node -> Node) : M unit :=
  fun s => ({| messages := messages s;
               targetObject := update_last f (targetObject s);
               sourceObject := sourceObject s |}, Ok tt).

Definition get_ero : M Node :=
  fun s => match last (map Some (targetObject s)) None with
           | Some n => (s, Ok n)
           | None => (s, Raise AttributeError)
           end.

(** [sourceObject.removeObject(sourceObject.<component>)]: reading a
    component the object no longer has is an attribute error. *)
Definition removeObject (present : SourceObject -> bool)
           (remove : SourceObject -> SourceObject) : M unit :=
  fun s => if present (sourceObject s)
           then set_source remove s
           else (s, Raise AttributeError).

Definition set_DeformableParts (position : list Vec3) (n : Node) : Node :=
  {| node_name := node_name n;
     DeformableParts := Some position;
     RigidParts := RigidParts n;
     RigidifiedParticules := RigidifiedParticules n;
     rigidIndexPerPoint := rigidIndexPerPoint n;
     coupling_attached := coupling_attached n |}.

Definition set_RigidParts (position : list (list Q)) (n : Node) : Node :=
  {| node_name := node_name n;
     DeformableParts := DeformableParts n;
     RigidParts := Some position;
     RigidifiedParticules := RigidifiedParticules n;
     rigidIndexPerPoint := rigidIndexPerPoint n;
     coupling_attached := coupling_attached n |}.

Definition set_RigidifiedParticules (position : list Vec3) (n : Node) : Node :=
  {| node_name := node_name n;
     DeformableParts := DeformableParts n;
     RigidParts := RigidParts n;
     RigidifiedParticules := Some position;
     rigidIndexPerPoint := rigidIndexPerPoint n;
     coupling_attached := coupling_attached n |}.

Definition set_rigidIndexPerPoint (indicesMap : list nat) (n : Node) : Node :=
  {| node_name := node_name n;
     DeformableParts := DeformableParts n;
     RigidParts := RigidParts n;
     RigidifiedParticules := RigidifiedParticules n;
     rigidIndexPerPoint := Some indicesMap;
     coupling_attached := coupling_attached n |}.

Definition set_coupling_attached (n : Node) : Node :=
  {| node_name := node_name n;
     DeformableParts := DeformableParts n;
     RigidParts := RigidParts n;
     RigidifiedParticules := RigidifiedParticules n;
     rigidIndexPerPoint := rigidIndexPerPoint n;
     coupling_attached := true |}.

Definition remove_solver (o : SourceObject) : SourceObject :=
  {| name_value := name_value o;
     container_position := container_position o;
     container_points := container_points o;
     dofs_position := dofs_position o;
     solver := false;
     integration := integration o;
     LinearSolverConstraintCorrection := LinearSolverConstraintCorrection o;
     mappings := mappings o |}.

Definition remove_integration (o : SourceObject) : SourceObject :=
  {| name_value := name_value o;
     container_position := container_position o;
     container_points := container_points o;
     dofs_position := dofs_position o;
     solver := solver o;
     integration := false;
     LinearSolverConstraintCorrection := LinearSolverConstraintCorrection o;
     mappings := mappings o |}.

Definition remove_LinearSolverConstraintCorrection (o : SourceObject)
  : SourceObject :=
  {| name_value := name_value o;
     container_position := container_position o;
     container_points := container_points o;
     dofs_position := dofs_position o;
     solver := solver o;
     integration := integration o;
     LinearSolverConstraintCorrection := false;
     mappings := mappings o |}.

Definition add_mapping (indexPairs : list Z) (o : SourceObject) : SourceObject :=
  {| name_value := name_value o;
     container_position := container_position o;
     container_points := container_points o;
     dofs_position := dofs_position o;
     solver := solver o;
     integration := integration o;
     LinearSolverConstraintCorrection := LinearSolverConstraintCorrection o;
     mappings := mappings o ++ [indexPairs] |}.

(** ** Rigidify *)

Definition deprecation_text : string :=
  "The parameter frameOrientations of the function Rigidify is now deprecated. Please use frames instead.".

Definition frame_size_text : string :=
  "Do not understand the size of a frame.".

Section Rigidify.

Variable rt : Runtime.

Local Open Scope py_scope.

(** The local function [mfilter(si, ai, pts)]; [tmp] is its accumulator. *)
Fixpoint mfilter_loop (si : list Z) (pts : list Vec3) (ai : list Z)
         (tmp : list Vec3) : result (list Vec3) :=
  match ai with
  | [] => Ok tmp
  | i :: ai' =>
      if Py.contains i si then
        match Py.getitem pts i with
        | Raise e => Raise e
        | Ok p => mfilter_loop si pts ai' (tmp ++ [p])
        end
      else mfilter_loop si pts ai' tmp
  end.

Definition mfilter (si ai : list Z) (pts : list Vec3) : result (list Vec3) :=
  mfilter_loop si pts ai [].

(** The branch on [len(frames[i])]: the entry appended to [rigids] is
    [poscenter + list(orientation)]. *)
Definition rigid_of_frame (frame : list Q) (selectedPoints : list Vec3)
  : M (list Q) :=
  if Nat.eqb (length frame) 3 then
    let orientation := createFromEuler rt frame in
    poscenter <- lift (getBarycenter selectedPoints) ;;
    ret (Vec3_list poscenter ++ orientation)
  else if Nat.eqb (length frame) 4 then
    let orientation := frame in
    poscenter <- lift (getBarycenter selectedPoints) ;;
    ret (Vec3_list poscenter ++ orientation)
  else if Nat.eqb (length frame) 6 then
    let orientation :=
      createFromEuler rt [nth 3 frame 0; nth 4 frame 0; nth 5 frame 0] in
    let poscenter := [nth 0 frame 0; nth 1 frame 0; nth 2 frame 0] in
    ret (poscenter ++ orientation)
  else if Nat.eqb (length frame) 7 then
    let orientation :=
      [nth 3 frame 0; nth 4 frame 0; nth 5 frame 0; nth 6 frame 0] in
    let poscenter := [nth 0 frame 0; nth 1 frame 0; nth 2 frame 0] in
    ret (poscenter ++ orientation)
  else
    emit (msg_error frame_size_text) ;;;
    raise NotImplementedError.

(** What the loop over the groups builds: [rigids], [selectedIndices] and
    [indicesMap]. *)
Record Selection : Type := {
  rigids : list (list Q);
  selectedIndices : list Z;
  indicesMap : list nat
}.

(** The loop [for i in range(len(groupIndices))], from index [i] on. *)
Fixpoint group_loop (allIndices : list Z) (sourcePoints : list Vec3)
         (i : nat) (groupIndices : list (list Z)) (frames : list (list Q))
         (acc : Selection) : M Selection :=
  match groupIndices with
  | [] => ret acc
  | g :: groupIndices' =>
      selectedPoints <- lift (mfilter g allIndices sourcePoints) ;;
      match frames with
      | [] => raise IndexError
      | frame :: frames' =>
          rigid <- rigid_of_frame frame selectedPoints ;;
          group_loop allIndices sourcePoints (S i) groupIndices' frames'
            {| rigids := rigids acc ++ [rigid];
               selectedIndices := selectedIndices acc ++ g;
               indicesMap := indicesMap acc ++ repeat i (length g) |}
      end
  end.

(** The dictionary [Kd] of the index pairs. *)
Definition make_Kd (allIndices otherIndices selectedIndices : list Z)
  : Py.dict :=
  let Kd := Py.comprehension (fun _ _ => None) allIndices in
  let Kd := Py.update Kd
              (Py.comprehension (fun k _ => Some [0%Z; Z.of_nat k])
                                otherIndices) in
  Py.update Kd
    (Py.comprehension (fun k _ => Some [1%Z; Z.of_nat k]) selectedIndices).

(** The second half of [Rigidify], once the loop over the groups has
    run: the index pairs, the three containers added below [ero], the
    removal of the solver components and the coupling. *)
Definition assemble (allPositions : list Vec3) (allIndices : list Z)
           (sel : Selection) : M Node :=
  let otherIndices :=
    list_set_difference rt allIndices (selectedIndices sel) in
  let Kd := make_Kd allIndices otherIndices (selectedIndices sel) in
  indexPairs <- lift (Py.flatten (Py.values Kd)) ;;
  free <- lift (Py.getitems allPositions otherIndices) ;;
  modify_ero (set_DeformableParts free) ;;;
  modify_ero (set_RigidParts (rigids sel)) ;;;
  rigidified <- lift (Py.getitems allPositions (selectedIndices sel)) ;;
  modify_ero (set_RigidifiedParticules rigidified) ;;;
  modify_ero (set_rigidIndexPerPoint (indicesMap sel)) ;;;
  removeObject solver remove_solver ;;;
  removeObject integration remove_integration ;;;
  removeObject LinearSolverConstraintCorrection
               remove_LinearSolverConstraintCorrection ;;;
  set_source (add_mapping indexPairs) ;;;
  modify_ero set_coupling_attached ;;;
  get_ero.

(** [Rigidify(targetObject, sourceObject, groupIndices, frames, name,
    frameOrientation)]; the target and the source are those of the
    scene. [sourceObject.init()] leaves what the function reads as it is
    and has no counterpart here; the SubsetMultiMapping is recorded on the
    source object, whether the coupling is the object or its node. *)
Definition Rigidify (groupIndices : list (list Z))
           (frames : option (list (list Q))) (name : option string)
           (frameOrientation : option (list (list Q))) : M Node :=
  frames <- match frameOrientation with
            | Some fo => emit (msg_warning deprecation_text) ;;; ret (Some fo)
            | None => ret frames
            end ;;
  let frames := match frames with
                | None => repeat [0; 0; 0] (length groupIndices)
                | Some f => f
                end in
  if negb (Nat.eqb (length groupIndices) (length frames))
  then raise AssertionError
  else
    src <- get_source ;;
    let name := match name with
                | None => name_value src
                | Some n => n
                end in
    addChild name ;;;
    let allPositions := container_position src in
    let allIndices := container_points src in
    let sourcePoints := dofs_position src in
    sel <- group_loop allIndices sourcePoints 0 groupIndices frames
             {| rigids := []; selectedIndices := []; indicesMap := [] |} ;;
    assemble allPositions allIndices sel.

End Rigidify.

(** ** Two implementations of [set]

    [ordered_difference] keeps the order of the first operand;
    [slot_difference] lists the elements by hash slot, as a table of
    eight slots does: an integer goes to the slot of its remainder
    modulo 8, so that 8 comes before 1. *)

Definition ordered_difference (a b : list Z) : list Z :=
  filter (fun x => negb (Py.contains x b)) (nodup Z.eq_dec a).

Definition slot (x : Z) : Z := (x mod 8)%Z.

Fixpoint slot_insert (x : Z) (l : list Z) : list Z :=
  match l with
  | [] => [x]
  | y :: l' => if (slot x <? slot y)%Z then x :: y :: l'
               else y :: slot_insert x l'
  end.

Definition slot_difference (a b : list Z) : list Z :=
  fold_right slot_insert [] (ordered_difference a b).

(** The value of [createFromEuler] at the zero angles, the only angles the
    sample runs below hand to it. *)
Definition identity_quaternion (angles : list Q) : list Q := [0; 0; 0; 1].

(** ** Reading the index pairs

    [local_index x l] is the place of the last occurrence of [x] in [l]
    (the only one when [l] has no duplicate). [index_pair] is the pair
    emitted for a global index: tag 1 and the local index among the
    selected indices when the index is rigidified, tag 0 and the local
    index among the other indices when it is free. *)

Fixpoint local_index (x : Z) (l : list Z) : nat :=
  match l with
  | [] => 0
  | _ :: l' => if Py.contains x l' then S (local_index x l') else 0
  end.

Definition index_pair (otherIndices selectedIndices : list Z) (x : Z)
  : list Z :=
  if Py.contains x selectedIndices
  then [1%Z; Z.of_nat (local_index x selectedIndices)]
  else [0%Z; Z.of_nat (local_index x otherIndices)].

(** What a pair (tag, local index) designates in two containers. *)
Definition lookup_pair {A : Type} (free rigidified : list A) (tag k : Z)
  : option A :=
  if (tag =? 0)%Z then nth_error free (Z.to_nat k)
  else if (tag =? 1)%Z then nth_error rigidified (Z.to_nat k)
  else None.

(** Decoding a flattened sequence of pairs against two containers. *)
Fixpoint decode {A : Type} (free rigidified : list A) (indexPairs : list Z)
  : list (option A) :=
  match indexPairs with
  | tag :: k :: rest =>
      lookup_pair free rigidified tag k :: decode free rigidified rest
  | _ => []
  end.

(** ** Inputs and expected frames

    The frames the function works with once the three optional arguments
    are resolved. *)
Definition resolve_frames (groupIndices : list (list Z))
           (frames frameOrientation : option (list (list Q)))
  : list (list Q) :=
  match frameOrientation with
  | Some fo => fo
  | None => match frames with
            | Some f => f
            | None => repeat [0; 0; 0] (length groupIndices)
            end
  end.

(** The four arities of a frame, and the two without a position. *)
Definition accepted (frame : list Q) : bool :=
  (Nat.eqb (length frame) 3 || Nat.eqb (length frame) 4 ||
   Nat.eqb (length frame) 6 || Nat.eqb (length frame) 7)%bool.

Definition needs_barycenter (frame : list Q) : bool :=
  (Nat.eqb (length frame) 3 || Nat.eqb (length frame) 4)%bool.

(** The group holds an index of a cloud of [n] points. *)
Definition selects (n : nat) (g : list Z) : bool :=
  existsb (fun i => Py.contains i g) (Py.range n).

(** Groups and frames match in number, every frame has an accepted arity
    and a frame without a position comes with a group that selects a
    point. *)
Fixpoint frames_ready (n : nat) (groupIndices : list (list Z))
         (frames : list (list Q)) : bool :=
  match groupIndices, frames with
  | [], [] => true
  | g :: groupIndices', frame :: frames' =>
      (accepted frame && (negb (needs_barycenter frame) || selects n g) &&
       frames_ready n groupIndices' frames')%bool
  | _, _ => false
  end.

(** The container lists the indices of its positions in ascending order
    and the degrees of freedom are as many as the positions. *)
Definition well_formed (src : SourceObject) : Prop :=
  container_points src = Py.range (length (container_position src)) /\
  length (dofs_position src) = length (container_position src).

Definition components_present (src : SourceObject) : Prop :=
  solver src = true /\ integration src = true /\
  LinearSolverConstraintCorrection src = true.

(** The points of a cloud whose global index is in the group, in the order
    of the cloud. *)
Definition selected_points (points : list Vec3) (g : list Z) : list Vec3 :=
  map snd (filter (fun kp => Py.contains (Z.of_nat (fst kp)) g)
                  (Py.enumerate points)).

(** Arithmetic mean of a sequence of scalars and of a sequence of points. *)
Definition mean (xs : list Q) : Q :=
  fold_right Qplus 0 xs / inject_Z (Z.of_nat (length xs)).

(** The orientation the caller asks for: the quaternion of the Euler angles
    for three or six scalars, the scalars themselves for four, the last four
    for seven. *)
Definition supplied_orientation (rt : Runtime) (frame : list Q) : list Q :=
  match frame with
  | [_; _; _] => createFromEuler rt frame
  | [_; _; _; _] => frame
  | [_; _; _; rx; ry; rz] => createFromEuler rt [rx; ry; rz]
  | [_; _; _; qx; qy; qz; qw] => [qx; qy; qz; qw]
  | _ => []
  end.


(** The owner of each rigidified point: the ordinal of its group, from the
    ordinal [i] on. *)
Fixpoint owners (i : nat) (groupIndices : list (list Z)) : list nat :=
  match groupIndices with
  | [] => []
  | g :: groupIndices' => repeat i (length g) ++ owners (S i) groupIndices'
  end.

(** The pair emitted at a place of the flattened sequence. *)
Definition pair_at (indexPairs : list Z) (place : nat) : list Z :=
  firstn 2 (skipn (2 * place) indexPairs).

(** The index pairs handed to the last SubsetMultiMapping of the source. *)
Definition indexPairs_of (s : Scene) : list Z :=
  last (mappings (sourceObject s)) [].

(** Two scalars agree within a tolerance. *)
Definition within (tolerance a b : Q) : Prop := Qabs (a - b) <= tolerance.

(** ** A sample scene

    A cloud of [n] points, the point of index [k] at [(k, 2k, 0)], held by
    a source object with its three solver components, and an empty
    target. *)
Definition sample_point (k : Z) : Vec3 :=
  mkVec3 (inject_Z k) (inject_Z (2 * k)) 0.

Definition sample_source (n : nat) : SourceObject :=
  {| name_value := "body";
     container_position := map sample_point (Py.range n);
     container_points := Py.range n;
     dofs_position := map sample_point (Py.range n);
     solver := true;
     integration := true;
     LinearSolverConstraintCorrection := true;
     mappings := [] |}.

Definition sample_scene (n : nat) : Scene :=
  {| messages := []; targetObject := []; sourceObject := sample_source n |}.

(** ** What a run leaves behind *)

(** What the frame of a group is expected to hold: a position, the
    barycenter of the selected points or the three leading scalars, then
    the orientation asked for. *)
Definition synthesized (rt : Runtime) (points : list Vec3)
           (gf : list Z * list Q)
           (rigid : list Q) : Prop :=
  exists position,
    rigid = position ++ supplied_orientation rt (snd gf) /\
    length position = 3%nat /\
    (needs_barycenter (snd gf) = true ->
     exists c, getBarycenter (selected_points points (fst gf)) = Ok c /\
               position = Vec3_list c) /\
    (needs_barycenter (snd gf) = false -> position = firstn 3 (snd gf)).

(** The selection once the loop has gone through the groups. *)
Definition advance (acc : Selection) (i : nat) (groupIndices : list (list Z))
           (rs : list (list Q)) : Selection :=
  {| rigids := rigids acc ++ rs;
     selectedIndices := selectedIndices acc ++ concat groupIndices;
     indicesMap := indicesMap acc ++ owners i groupIndices |}.

(** The node [ero] once the function has returned, and the source object
    once its components are removed and the coupling is added. *)
Definition built (child : Node) (free : list Vec3) (rs : list (list Q))
           (rigidified : list Vec3) (imap : list nat) : Node :=
  set_coupling_attached
    (set_rigidIndexPerPoint imap
       (set_RigidifiedParticules rigidified
          (set_RigidParts rs (set_DeformableParts free child)))).

Definition coupled (src : SourceObject) (indexPairs : list Z)
  : SourceObject :=
  add_mapping indexPairs
    (remove_LinearSolverConstraintCorrection
       (remove_integration (remove_solver src))).

(** The node [ero] when the function stops at the removal of a
    component. *)
Definition unfinished (child : Node) (free : list Vec3)
           (rs : list (list Q)) (rigidified : list Vec3)
           (imap : list nat) : Node :=
  set_rigidIndexPerPoint imap
    (set_RigidifiedParticules rigidified
       (set_RigidParts rs (set_DeformableParts free child))).

(** The scene once the deprecation warning is issued, the name given to
    [ero] and the child added to the target. *)
Definition warned (frameOrientation : option (list (list Q))) (s : Scene)
  : Scene :=
  match frameOrientation with
  | Some _ => fst (emit (msg_warning deprecation_text) s)
  | None => s
  end.

Definition child_name (name : option string) (src : SourceObject) : string :=
  match name with
  | None => name_value src
  | Some n => n
  end.

Definition new_child (name : string) : Node :=
  {| node_name := name;
     DeformableParts := None;
     RigidParts := None;
     RigidifiedParticules := None;
     rigidIndexPerPoint := None;
     coupling_attached := false |}.

Definition no_selection : Selection :=
  {| rigids := []; selectedIndices := []; indicesMap := [] |}.

(** * The toolbox of the cart and pole (sofagym/envs/CartPole/CartPoleToolbox.py)

    The scene is a record: the mechanical objects of the cart and of the
    pole (positions and velocities as [tolist()] gives them), the force of
    the cart, the time step, the increment of the action controller and
    the animations of the manager. A float is a rational; [math.pi] and
    [math.asin] are parameters. *)

Module CartPole.

Inductive error : Type :=
| KeyError (key : string)
| AttributeError
| IndexError
| TypeError
| ValueError
| ZeroDivisionError
| SystemExit (code : Z).

Inductive outcome (A : Type) : Type :=
| Return (a : A)
| Throw (e : error).

Arguments Return {A} a.
Arguments Throw {A} e.

Definition and_then {A B : Type} (m : outcome A) (k : A -> outcome B)
  : outcome B :=
  match m with
  | Return a => k a
  | Throw e => Throw e
  end.

Notation "x <- m ;; k" := (and_then m (fun x => k))
  (at level 61, m at next level, right associativity).

(** The values handed to a controller: [None], a float, a node. *)
Inductive value : Type :=
| PyNone
| PyFloat (x : Q)
| PyNode.

(** [if v:]. *)
Definition truthy (v : value) : bool :=
  match v with
  | PyNone => false
  | PyFloat x => negb (Qeq_bool x 0)
  | PyNode => true
  end.

(** [l[i]] on a list read by [tolist()], with a literal index. *)
Definition item {A : Type} (l : list A) (i : nat) : outcome A :=
  match nth_error l i with
  | Some a => Return a
  | None => Throw IndexError
  end.

(** [kwargs[key]]. *)
Fixpoint lookup (kwargs : list (string * value)) (key : string)
  : outcome value :=
  match kwargs with
  | [] => Throw (KeyError key)
  | (k, v) :: kwargs' =>
      if String.eqb k key then Return v else lookup kwargs' key
  end.

Record MechanicalObject : Type := {
  position : list (list Q);
  velocity : list (list Q)
}.

Record Animation : Type := {
  anim_incr : Q;
  anim_duration : Q
}.

Record Scene : Type := {
  Cart : MechanicalObject;
  Pole : MechanicalObject;
  CartForce_force : list Q;
  dt : Q;
  applyAction_incr : Q;
  animations : list Animation
}.

(** The attributes of a [rewardShaper]: [rootNode] is always set,
    [max_angle] and [pole_length] only when the constructor sets them. *)
Record rewardShaper : Type := {
  rootNode : value;
  max_angle : option value;
  pole_length : option value
}.

Definition error_text : string :=
  ">> ERROR: give a max angle for the normalization of the reward.".

(** [rewardShaper.__init__(self, **kwargs)]: what is printed, and the
    object or the exception. [Sofa.Core.Controller.__init__] has no
    counterpart here. *)
Definition rewardShaper_init (kwargs : list (string * value))
  : list string * outcome rewardShaper :=
  match lookup kwargs "rootNode" with
  | Throw e => ([], Throw e)
  | Return root_arg =>
      let root := if truthy root_arg then root_arg else PyNone in
      match lookup kwargs "max_angle" with
      | Throw e => ([], Throw e)
      | Return angle_arg =>
          let angle := if truthy angle_arg then Some angle_arg else None in
          match lookup kwargs "pole_length" with
          | Throw e => ([], Throw e)
          | Return length_arg =>
              if truthy length_arg then
                match root with
                | PyNode =>
                    ([], Return {| rootNode := root;
                                   max_angle := angle;
                                   pole_length := Some length_arg |})
                | _ => ([], Throw AttributeError)
                end
              else ([error_text], Throw (SystemExit 1))
          end
      end
  end.

Definition Qlt_bool (x y : Q) : bool := negb (Qle_bool y x).

(** A float out of a value, for the arithmetic and the comparisons. *)
Definition float_of (v : value) : outcome Q :=
  match v with
  | PyFloat x => Return x
  | _ => Throw TypeError
  end.

Definition attribute (a : option value) : outcome value :=
  match a with
  | Some v => Return v
  | None => Throw AttributeError
  end.

Section Math.

(** [math.pi] and [math.asin]. *)
Variable pi : Q.
Variable asin : Q -> outcome Q.

(** [rewardShaper._getPolePos]. *)
Definition _getPolePos (scene : Scene) : outcome (Q * Q) :=
  pos <- item (position (Pole scene)) 0 ;;
  x <- item pos 0 ;;
  y <- item pos 1 ;;
  Return (x, y).

(** [rewardShaper._getCartPos]. *)
Definition _getCartPos (scene : Scene) : outcome Q :=
  pos <- item (position (Cart scene)) 0 ;;
  item pos 0.

(** [rewardShaper.calculatePoleTheta]. *)
Definition calculatePoleTheta (self : rewardShaper) (scene : Scene)
           (cart_pos : Q) : outcome (Q * Q) :=
  xy <- _getPolePos scene ;;
  let (x_pos, y_pos) := xy in
  len <- attribute (pole_length self) ;;
  len <- float_of len ;;
  if Qeq_bool len 0 then Throw ZeroDivisionError
  else
    let sin_theta := y_pos / len in
    a <- asin sin_theta ;;
    let theta := Qabs (90 * pi / 180 - a) in
    let theta := if Qlt_bool x_pos cart_pos then - theta else theta in
    v <- item (velocity (Pole scene)) 0 ;;
    theta_dot <- item v 5 ;;
    Return (theta, theta_dot).

(** [rewardShaper.getReward]. *)
Definition rewardShaper_getReward (self : rewardShaper) (scene : Scene)
  : outcome (Q * Q * value) :=
  cart_pos <- _getCartPos scene ;;
  tt' <- calculatePoleTheta self scene cart_pos ;;
  angle <- attribute (max_angle self) ;;
  Return (1, fst tt', angle).


(** [getReward(rootNode)]. *)
Definition getReward (self : rewardShaper) (scene : Scene)
  : outcome (bool * Q) :=
  r <- rewardShaper_getReward self scene ;;
  let '(reward, theta, angle) := r in
  angle <- float_of angle ;;
  let done := (Qlt_bool angle theta || Qlt_bool theta (- angle))%bool in
  Return (done, reward).

End Math.


Definition set_position (m : MechanicalObject) (p : list (list Q))
  : MechanicalObject :=
  {| position := p; velocity := velocity m |}.


(** [applyAction._move], [compute_action] and [apply_action]. *)
Definition set_force (scene : Scene) (force : list Q) : Scene :=
  {| Cart := Cart scene;
     Pole := Pole scene;
     CartForce_force := force;
     dt := dt scene;
     applyAction_incr := applyAction_incr scene;
     animations := animations scene |}.

Definition _move (scene : Scene) (incr : Q) : outcome Scene :=
  match CartForce_force scene with
  | [] => Throw IndexError
  | _ :: rest => Return (set_force scene (incr :: rest))
  end.

Definition compute_action (scene : Scene) (actions : Z) : Q :=
  if (actions =? 0)%Z then applyAction_incr scene
  else - applyAction_incr scene.

Definition apply_action (scene : Scene) (incr : Q) : outcome Scene :=
  _move scene incr.

(** [action_to_command(actions, root, nb_step)]. *)
Definition action_to_command (actions : Z) (scene : Scene) (nb_step : Q)
  : Q :=
  compute_action scene actions.

(** [startCmd_CartPole(rootNode, incr, duration)]: the animation joins
    those of the manager; [executeAnimation] is what it runs at each
    update. *)
Definition executeAnimation (scene : Scene) (incr factor : Q)
  : outcome Scene :=
  apply_action scene incr.

Definition startCmd_CartPole (scene : Scene) (incr duration : Q) : Scene :=
  {| Cart := Cart scene;
     Pole := Pole scene;
     CartForce_force := CartForce_force scene;
     dt := dt scene;
     applyAction_incr := applyAction_incr scene;
     animations := animations scene ++
                   [{| anim_incr := incr; anim_duration := duration |}] |}.

(** [startCmd(root, actions, duration)]: the number of steps is computed
    before the call, and divides by the time step. *)
Definition startCmd (scene : Scene) (actions : Z) (duration : Q)
  : outcome Scene :=
  if Qeq_bool (dt scene) 0 then Throw ZeroDivisionError
  else
    let nb_step := duration / dt scene + 1 in
    let incr := action_to_command actions scene nb_step in
    Return (startCmd_CartPole scene incr duration).

End CartPole.

(** ** A sample cart and pole

    [sample_asin] stands for [math.asin] in the sample runs: it raises
    out of [-1, 1] as [math.asin] does and, with 355/113 for [math.pi],
    is exact at -1, 0 and 1. *)
Definition sample_pi : Q := 355 # 113.

Definition sample_asin (x : Q) : CartPole.outcome Q :=
  if (Qle_bool (-1) x && Qle_bool x 1)%bool
  then CartPole.Return (x * (355 # 226))
  else CartPole.Throw CartPole.ValueError.

(** The cart at the origin, the pole upright at height 2 over the abscissa
    [x], turning at the rate 3. *)
Definition sample_cart_pole (x : Q) : CartPole.Scene :=
  {| CartPole.Cart :=
       {| CartPole.position := [[0; 0; 0; 0; 0; 0; 1]];
          CartPole.velocity := [[5; 0; 0; 0; 0; 0]] |};
     CartPole.Pole :=
       {| CartPole.position := [[x; 2; 0; 0; 0; 0; 1]];
          CartPole.velocity := [[0; 0; 0; 0; 0; 3]] |};
     CartPole.CartForce_force := [0; 0; 0; 0; 0; 0];
     CartPole.dt := 1 # 100;
     CartPole.applyAction_incr := 1000;
     CartPole.animations := [] |}.

Definition sample_shaper (angle : option CartPole.value)
  : CartPole.rewardShaper :=
  {| CartPole.rootNode := CartPole.PyNode;
     CartPole.max_angle := angle;
     CartPole.pole_length := Some (CartPole.PyFloat 2) |}.

(** * Properties *)

(** ** The two implementations of [set] meet the contract of [Runtime] *)

Lemma contains_In (i : Z) (l : list Z) : Py.contains i l = true <-> In i l.
Proof.
  unfold Py.contains. rewrite existsb_exists. split.
  - intros [x [Hx Heq]]. apply Z.eqb_eq in Heq. now subst.
  - intros H. exists i. split; [assumption | apply Z.eqb_refl].
Qed.

Lemma contains_false (i : Z) (l : list Z) :
  Py.contains i l = false <-> ~ In i l.
Proof.
  rewrite <- contains_In. destruct (Py.contains i l); split; intros H;
    try discriminate; try reflexivity; try (intros H'; discriminate).
  exfalso. now apply H.
Qed.

Lemma ordered_difference_NoDup (a b : list Z) : NoDup (ordered_difference a b).
Proof.
  unfold ordered_difference. apply NoDup_filter, NoDup_nodup.
Qed.

Lemma ordered_difference_In (a b : list Z) (x : Z) :
  In x (ordered_difference a b) <-> In x a /\ ~ In x b.
Proof.
  unfold ordered_difference. rewrite filter_In, nodup_In, negb_true_iff.
  now rewrite contains_false.
Qed.

Lemma slot_insert_Permutation (x : Z) (l : list Z) :
  Permutation (slot_insert x l) (x :: l).
Proof.
  induction l as [| y l IH]; simpl.
  - apply Permutation_refl.
  - destruct (slot x <? slot y)%Z.
    + apply Permutation_refl.
    + eapply Permutation_trans; [apply perm_skip, IH | apply perm_swap].
Qed.

Lemma slot_difference_Permutation (a b : list Z) :
  Permutation (slot_difference a b) (ordered_difference a b).
Proof.
  unfold slot_difference.
  induction (ordered_difference a b) as [| x l IH]; simpl.
  - apply Permutation_refl.
  - eapply Permutation_trans; [apply slot_insert_Permutation |].
    now apply perm_skip.
Qed.

Lemma slot_difference_NoDup (a b : list Z) : NoDup (slot_difference a b).
Proof.
  eapply Permutation_NoDup.
  - apply Permutation_sym, slot_difference_Permutation.
  - apply ordered_difference_NoDup.
Qed.

Lemma slot_difference_In (a b : list Z) (x : Z) :
  In x (slot_difference a b) <-> In x a /\ ~ In x b.
Proof.
  rewrite <- ordered_difference_In. split; apply Permutation_in.
  - apply slot_difference_Permutation.
  - apply Permutation_sym, slot_difference_Permutation.
Qed.

Definition ordered_runtime : Runtime :=
  {| createFromEuler := identity_quaternion;
     list_set_difference := ordered_difference;
     list_set_difference_NoDup := ordered_difference_NoDup;
     list_set_difference_In := ordered_difference_In |}.

Definition slot_runtime : Runtime :=
  {| createFromEuler := identity_quaternion;
     list_set_difference := slot_difference;
     list_set_difference_NoDup := slot_difference_NoDup;
     list_set_difference_In := slot_difference_In |}.

(** ** List indexing *)

Lemma getitem_nonneg {A : Type} (l : list A) (i : Z) :
  (0 <= i < Z.of_nat (length l))%Z ->
  exists a, Py.getitem l i = Ok a /\ nth_error l (Z.to_nat i) = Some a.
Proof.
  intros Hi. unfold Py.getitem.
  destruct (Z.ltb_spec i 0); [lia |].
  destruct (Z.ltb_spec i 0); [lia |].
  destruct (Z.leb_spec (Z.of_nat (length l)) i); [lia |]. simpl.
  destruct (nth_error l (Z.to_nat i)) as [a |] eqn:E.
  - now exists a.
  - apply nth_error_None in E. lia.
Qed.

Lemma getitem_valid {A : Type} (l : list A) (i : Z) :
  (- Z.of_nat (length l) <= i < Z.of_nat (length l))%Z ->
  exists a, Py.getitem l i = Ok a.
Proof.
  intros Hi. unfold Py.getitem.
  set (n := Z.of_nat (length l)) in *.
  set (j := if (i <? 0)%Z then (i + n)%Z else i).
  assert (Hj : (0 <= j < n)%Z).
  { subst j. destruct (Z.ltb_spec i 0); lia. }
  destruct (Z.ltb_spec j 0); [lia |].
  destruct (Z.leb_spec n j); [lia |]. simpl.
  destruct (nth_error l (Z.to_nat j)) as [a |] eqn:E.
  - now exists a.
  - apply nth_error_None in E. lia.
Qed.

Lemma getitem_invalid {A : Type} (l : list A) (i : Z) :
  (i < - Z.of_nat (length l) \/ Z.of_nat (length l) <= i)%Z ->
  Py.getitem l i = Raise IndexError.
Proof.
  intros Hi. unfold Py.getitem.
  set (n := Z.of_nat (length l)) in *.
  destruct (Z.ltb_spec i 0).
  - destruct (Z.ltb_spec (i + n) 0); [reflexivity | lia].
  - destruct (Z.ltb_spec i 0); [lia |].
    destruct (Z.leb_spec n i); [reflexivity | lia].
Qed.

Lemma getitem_Raise {A : Type} (l : list A) (i : Z) (e : exn) :
  Py.getitem l i = Raise e -> e = IndexError.
Proof.
  unfold Py.getitem. intros H.
  destruct (_ || _)%bool; [congruence |].
  destruct (nth_error _ _); congruence.
Qed.

Lemma getitem_Ok_nonneg {A : Type} (l : list A) (i : Z) (a : A) :
  (0 <= i)%Z -> Py.getitem l i = Ok a -> nth_error l (Z.to_nat i) = Some a.
Proof.
  intros Hi. unfold Py.getitem.
  destruct (Z.ltb_spec i 0); [lia |].
  destruct (_ || _)%bool; [discriminate |].
  destruct (nth_error l (Z.to_nat i)); congruence.
Qed.

Lemma getitems_Raise {A : Type} (a : list A) (idx : list Z) (e : exn) :
  Py.getitems a idx = Raise e -> e = IndexError.
Proof.
  induction idx as [| i idx IH]; simpl; [discriminate |].
  destruct (Py.getitem a i) eqn:E.
  - destruct (Py.getitems a idx); [discriminate |].
    intros H. apply IH. congruence.
  - intros H. apply getitem_Raise in E. congruence.
Qed.

Lemma getitems_valid {A : Type} (a : list A) (idx : list Z) :
  (forall i, In i idx ->
             (- Z.of_nat (length a) <= i < Z.of_nat (length a))%Z) ->
  exists xs, Py.getitems a idx = Ok xs.
Proof.
  induction idx as [| i idx IH]; intros H; simpl.
  - now exists [].
  - destruct (getitem_valid a i) as [x Hx]; [apply H; now left |].
    destruct IH as [xs Hxs]; [intros j Hj; apply H; now right |].
    rewrite Hx, Hxs. now exists (x :: xs).
Qed.

Lemma getitems_invalid {A : Type} (a : list A) (idx : list Z) (i : Z) :
  In i idx ->
  (i < - Z.of_nat (length a) \/ Z.of_nat (length a) <= i)%Z ->
  Py.getitems a idx = Raise IndexError.
Proof.
  induction idx as [| j idx IH]; intros Hin Hi; simpl; [contradiction |].
  destruct (Py.getitem a j) eqn:E.
  - destruct Hin as [-> | Hin].
    + rewrite getitem_invalid in E by assumption. discriminate.
    + now rewrite IH.
  - apply getitem_Raise in E. now subst.
Qed.

Lemma getitems_nth {A : Type} (a : list A) (idx : list Z) (xs : list A) :
  Py.getitems a idx = Ok xs ->
  forall k i, nth_error idx k = Some i ->
              exists x, nth_error xs k = Some x /\ Py.getitem a i = Ok x.
Proof.
  revert xs. induction idx as [| j idx IH]; intros xs H k i Hk.
  - destruct k; discriminate.
  - simpl in H. destruct (Py.getitem a j) as [x |] eqn:E; [| discriminate].
    destruct (Py.getitems a idx) as [ys |] eqn:E'; [| discriminate].
    injection H as <-. destruct k as [| k]; simpl in *.
    + injection Hk as <-. now exists x.
    + now apply (IH ys eq_refl k i).
Qed.

Lemma getitems_length {A : Type} (a : list A) (idx : list Z) (xs : list A) :
  Py.getitems a idx = Ok xs -> length xs = length idx.
Proof.
  revert xs. induction idx as [| j idx IH]; intros xs H; simpl in *.
  - now injection H as <-.
  - destruct (Py.getitem a j); [| discriminate].
    destruct (Py.getitems a idx) as [ys |]; [| discriminate].
    injection H as <-. simpl. f_equal. now apply IH.
Qed.

Lemma getitems_app_Ok {A : Type} (a : list A) (i1 i2 : list Z)
      (x1 x2 : list A) :
  Py.getitems a i1 = Ok x1 -> Py.getitems a i2 = Ok x2 ->
  Py.getitems a (i1 ++ i2) = Ok (x1 ++ x2).
Proof.
  revert x1. induction i1 as [| j i1 IH]; intros x1 H1 H2; simpl in *.
  - now injection H1 as <-.
  - destruct (Py.getitem a j); [| discriminate].
    destruct (Py.getitems a i1) as [ys |]; [| discriminate].
    injection H1 as <-. now rewrite (IH ys eq_refl H2).
Qed.

(** ** The range *)

Lemma range_length (n : nat) : length (Py.range n) = n.
Proof. unfold Py.range. now rewrite length_map, length_seq. Qed.

Lemma range_In (n : nat) (i : Z) :
  In i (Py.range n) <-> (0 <= i < Z.of_nat n)%Z.
Proof.
  unfold Py.range. rewrite in_map_iff. split.
  - intros [k [<- Hk]]. apply in_seq in Hk. lia.
  - intros Hi. exists (Z.to_nat i). split; [lia |]. apply in_seq. lia.
Qed.

Lemma range_NoDup (n : nat) : NoDup (Py.range n).
Proof.
  unfold Py.range. apply NoDup_map_NoDup_ForallPairs.
  - intros x y _ _. apply Nat2Z.inj.
  - apply seq_NoDup.
Qed.

Lemma range_nth (n k : nat) :
  (k < n)%nat -> nth_error (Py.range n) k = Some (Z.of_nat k).
Proof.
  intros Hk. unfold Py.range. rewrite nth_error_map.
  rewrite nth_error_seq. destruct (Nat.ltb_spec k n); [reflexivity | lia].
Qed.

(** ** The dictionary *)

Lemma NoDup_app_In {A : Type} (l l' : list A) (x : A) :
  NoDup (l ++ l') -> In x l -> In x l' -> False.
Proof.
  induction l as [| a l IH]; intros Hnd Hl Hl'; [contradiction |].
  simpl in Hnd. inversion Hnd as [| ? ? Ha Hnd']; subst.
  destruct Hl as [-> | Hl].
  - apply Ha, in_or_app. now right.
  - now apply IH.
Qed.

Lemma contains_app (x : Z) (l1 l2 : list Z) :
  Py.contains x (l1 ++ l2) = (Py.contains x l1 || Py.contains x l2)%bool.
Proof. unfold Py.contains. apply existsb_app. Qed.

Lemma keys_setitem (k : Z) (v : option (list Z)) (d : Py.dict) :
  Py.keys (Py.setitem k v d) =
  Py.keys d ++ (if Py.contains k (Py.keys d) then [] else [k]).
Proof.
  induction d as [| [k' v'] d IH]; simpl; [reflexivity |].
  destruct (Z.eqb_spec k k') as [-> | Hne]; simpl.
  - now rewrite app_nil_r.
  - now rewrite IH.
Qed.

Lemma get_setitem (x k : Z) (v : option (list Z)) (d : Py.dict) :
  Py.get x (Py.setitem k v d) = if (x =? k)%Z then Some v else Py.get x d.
Proof.
  induction d as [| [k' v'] d IH]; simpl; [reflexivity |].
  destruct (Z.eqb_spec k k') as [-> | Hne]; simpl.
  - destruct (Z.eqb_spec x k'); reflexivity.
  - rewrite IH. destruct (Z.eqb_spec x k') as [-> | Hne'];
      [| reflexivity].
    destruct (Z.eqb_spec k' k); [congruence | reflexivity].
Qed.

Lemma get_None (x : Z) (d : Py.dict) :
  Py.get x d = None <-> ~ In x (Py.keys d).
Proof.
  induction d as [| [k v] d IH]; simpl.
  - tauto.
  - destruct (Z.eqb_spec x k) as [-> | Hne].
    + split; [discriminate | intros H; exfalso; apply H; now left].
    + rewrite IH. split; intros H; [intros [H' | H']; congruence | tauto].
Qed.

Lemma get_Some_keys (x : Z) (d : Py.dict) (v : option (list Z)) :
  Py.get x d = Some v -> In x (Py.keys d).
Proof.
  intros H. destruct (in_dec Z.eq_dec x (Py.keys d)) as [Hin | Hnin];
    [assumption |].
  apply get_None in Hnin. congruence.
Qed.

Lemma keys_setitem_NoDup (k : Z) (v : option (list Z)) (d : Py.dict) :
  NoDup (Py.keys d) -> NoDup (Py.keys (Py.setitem k v d)).
Proof.
  intros H. rewrite keys_setitem.
  destruct (Py.contains k (Py.keys d)) eqn:E.
  - now rewrite app_nil_r.
  - apply contains_false in E. apply NoDup_app; auto.
    + constructor; [intros [] | constructor].
    + intros a Ha [<- | []]. contradiction.
Qed.

Lemma combine_seq_snoc {A : Type} (l : list A) (x : A) (start : nat) :
  combine (seq start (length (l ++ [x]))) (l ++ [x]) =
  combine (seq start (length l)) l ++ [((start + length l)%nat, x)].
Proof.
  revert start. induction l as [| a l IH]; intros start; simpl.
  - now rewrite Nat.add_0_r.
  - rewrite IH. now rewrite Nat.add_succ_r.
Qed.

Lemma enumerate_snoc {A : Type} (l : list A) (x : A) :
  Py.enumerate (l ++ [x]) = Py.enumerate l ++ [(length l, x)].
Proof. unfold Py.enumerate. now rewrite combine_seq_snoc. Qed.

Lemma comprehension_snoc (f : nat -> Z -> option (list Z)) (l : list Z)
      (x : Z) :
  Py.comprehension f (l ++ [x]) =
  Py.setitem x (f (length l) x) (Py.comprehension f l).
Proof.
  unfold Py.comprehension. rewrite enumerate_snoc, fold_left_app.
  reflexivity.
Qed.

Lemma local_index_snoc (x y : Z) (l : list Z) :
  local_index x (l ++ [y]) =
  if (x =? y)%Z then length l else local_index x l.
Proof.
  induction l as [| a l IH]; simpl.
  - now destruct (x =? y)%Z.
  - rewrite contains_app, IH. simpl. unfold Py.contains at 2. simpl.
    destruct (Z.eqb_spec x y) as [-> | Hne].
    + now rewrite orb_true_r.
    + now rewrite orb_false_r.
Qed.

Lemma local_index_nth (x : Z) (l : list Z) :
  In x l -> nth_error l (local_index x l) = Some x.
Proof.
  induction l as [| a l IH]; intros Hin; [contradiction |]. simpl.
  destruct (Py.contains x l) eqn:E.
  - simpl. apply IH. now apply contains_In.
  - apply contains_false in E. destruct Hin as [-> | Hin];
      [reflexivity | contradiction].
Qed.

Lemma local_index_last (x : Z) (l : list Z) (k : nat) :
  nth_error l k = Some x -> (k <= local_index x l)%nat.
Proof.
  revert k. induction l as [| a l IH]; intros k Hk.
  - destruct k; discriminate.
  - destruct k as [| k]; [lia |]. simpl in *.
    assert (Hin : In x l) by (eapply nth_error_In; eassumption).
    apply contains_In in Hin. rewrite Hin. apply IH in Hk. lia.
Qed.

Lemma local_index_NoDup (l : list Z) (k : nat) (x : Z) :
  NoDup l -> nth_error l k = Some x -> local_index x l = k.
Proof.
  intros Hnd Hk.
  assert (Hin : In x l) by (eapply nth_error_In; eassumption).
  pose proof (local_index_nth x l Hin) as Hn.
  rewrite NoDup_nth_error in Hnd. apply Hnd.
  - apply nth_error_Some. congruence.
  - congruence.
Qed.

Lemma get_comprehension (f : nat -> Z -> option (list Z)) (l : list Z)
      (x : Z) :
  Py.get x (Py.comprehension f l) =
  if Py.contains x l then Some (f (local_index x l) x) else None.
Proof.
  induction l as [| y l IH] using rev_ind; [reflexivity |].
  rewrite comprehension_snoc, get_setitem, IH, contains_app,
    local_index_snoc.
  unfold Py.contains at 2. simpl.
  destruct (Z.eqb_spec x y) as [-> | Hne].
  - now rewrite orb_true_r.
  - now rewrite orb_false_r.
Qed.

Lemma keys_comprehension_NoDup (f : nat -> Z -> option (list Z))
      (l : list Z) :
  NoDup (Py.keys (Py.comprehension f l)).
Proof.
  induction l as [| y l IH] using rev_ind; [constructor |].
  rewrite comprehension_snoc. now apply keys_setitem_NoDup.
Qed.

Lemma keys_comprehension_In (f : nat -> Z -> option (list Z)) (l : list Z)
      (x : Z) :
  In x (Py.keys (Py.comprehension f l)) <-> In x l.
Proof.
  pose proof (get_comprehension f l x) as Hg.
  destruct (Py.contains x l) eqn:E.
  - apply contains_In in E. split; [intros _; assumption | intros _].
    eapply get_Some_keys; eassumption.
  - apply contains_false in E. apply get_None in Hg. tauto.
Qed.

Lemma keys_comprehension (f : nat -> Z -> option (list Z)) (l : list Z) :
  NoDup l -> Py.keys (Py.comprehension f l) = l.
Proof.
  induction l as [| y l IH] using rev_ind; intros Hnd; [reflexivity |].
  rewrite comprehension_snoc, keys_setitem.
  apply NoDup_remove in Hnd. rewrite app_nil_r in Hnd.
  destruct Hnd as [Hnd Hy]. rewrite (IH Hnd).
  apply contains_false in Hy. now rewrite Hy.
Qed.

Lemma get_update (x : Z) (d d' : Py.dict) :
  NoDup (Py.keys d') ->
  Py.get x (Py.update d d') =
  match Py.get x d' with
  | Some v => Some v
  | None => Py.get x d
  end.
Proof.
  unfold Py.update. revert d.
  induction d' as [| [k v] d' IH]; intros d Hnd; simpl; [reflexivity |].
  inversion Hnd as [| ? ? Hk Hnd']; subst.
  rewrite (IH _ Hnd'), get_setitem.
  destruct (Z.eqb_spec x k) as [-> | Hne]; [| reflexivity].
  apply get_None in Hk. now rewrite Hk.
Qed.

Lemma keys_update (d d' : Py.dict) :
  NoDup (Py.keys d) ->
  exists extra,
    Py.keys (Py.update d d') = Py.keys d ++ extra /\
    NoDup (Py.keys d ++ extra) /\
    forall x, In x extra -> In x (Py.keys d').
Proof.
  unfold Py.update. revert d.
  induction d' as [| [k v] d' IH]; intros d Hnd; simpl.
  - exists []. rewrite app_nil_r. repeat split; [assumption | intros x []].
  - destruct (IH (Py.setitem k v d)) as [extra [Hk [Hnd' Hin]]];
      [now apply keys_setitem_NoDup |].
    rewrite keys_setitem in Hk, Hnd'. rewrite <- app_assoc in Hk, Hnd'.
    eexists. split; [exact Hk |]. split; [exact Hnd' |].
    intros x Hx. apply in_app_or in Hx. destruct Hx as [Hx | Hx].
    + destruct (Py.contains k (Py.keys d)); [contradiction |].
      destruct Hx as [<- | []]. now left.
    + right. now apply Hin.
Qed.

Lemma values_get (d : Py.dict) :
  NoDup (Py.keys d) ->
  Py.values d =
  map (fun k => match Py.get k d with Some v => v | None => None end)
      (Py.keys d).
Proof.
  induction d as [| [k v] d IH]; intros Hnd; simpl; [reflexivity |].
  inversion Hnd as [| ? ? Hk Hnd']; subst.
  rewrite Z.eqb_refl. f_equal. rewrite (IH Hnd').
  apply map_ext_in. intros x Hx.
  destruct (Z.eqb_spec x k) as [-> | Hne]; [contradiction | reflexivity].
Qed.

Lemma flatten_map (f : Z -> list Z) (l : list Z) :
  Py.flatten (map (fun x => Some (f x)) l) = Ok (flat_map f l).
Proof.
  induction l as [| x l IH]; simpl; [reflexivity |]. now rewrite IH.
Qed.

(** ** The dictionary [Kd] *)

Lemma Kd_get (a o sel : list Z) (x : Z) :
  Py.get x (make_Kd a o sel) =
  if Py.contains x sel then Some (Some [1%Z; Z.of_nat (local_index x sel)])
  else if Py.contains x o then Some (Some [0%Z; Z.of_nat (local_index x o)])
  else if Py.contains x a then Some None
  else None.
Proof.
  unfold make_Kd.
  rewrite get_update by apply keys_comprehension_NoDup.
  rewrite get_comprehension. destruct (Py.contains x sel); [reflexivity |].
  rewrite get_update by apply keys_comprehension_NoDup.
  rewrite get_comprehension. destruct (Py.contains x o); [reflexivity |].
  apply get_comprehension.
Qed.

Lemma Kd_keys (a o sel : list Z) :
  NoDup a ->
  exists extra,
    Py.keys (make_Kd a o sel) = a ++ extra /\
    NoDup (a ++ extra) /\
    forall x, In x extra -> In x o \/ In x sel.
Proof.
  intros Hnd. unfold make_Kd.
  set (d0 := Py.comprehension (fun _ _ => None) a).
  assert (H0 : Py.keys d0 = a) by now apply keys_comprehension.
  set (D1 := Py.comprehension (fun k _ => Some [0%Z; Z.of_nat k]) o).
  set (D2 := Py.comprehension (fun k _ => Some [1%Z; Z.of_nat k]) sel).
  destruct (keys_update d0 D1) as [e1 [Hk1 [Hnd1 Hin1]]];
    [now rewrite H0 |].
  destruct (keys_update (Py.update d0 D1) D2) as [e2 [Hk2 [Hnd2 Hin2]]];
    [now rewrite Hk1 |].
  rewrite Hk1, H0, <- app_assoc in Hk2, Hnd2.
  exists (e1 ++ e2). split; [exact Hk2 |]. split; [exact Hnd2 |].
  intros x Hx. apply in_app_or in Hx. destruct Hx as [Hx | Hx].
  - left. apply Hin1 in Hx. now apply keys_comprehension_In in Hx.
  - right. apply Hin2 in Hx. now apply keys_comprehension_In in Hx.
Qed.

Lemma Kd_keys_NoDup (a o sel : list Z) :
  NoDup a -> NoDup (Py.keys (make_Kd a o sel)).
Proof.
  intros Hnd. destruct (Kd_keys a o sel Hnd) as [extra [Hk [Hnd' _]]].
  now rewrite Hk.
Qed.

(** The index pairs are those of the keys of [Kd], in the order of the
    keys: no value of [Kd] is left at [None] when every index of the
    container is selected or other. *)
Lemma Kd_flatten (a o sel : list Z) :
  NoDup a ->
  (forall x, In x a -> In x sel \/ In x o) ->
  exists extra,
    NoDup (a ++ extra) /\
    (forall x, In x extra -> In x o \/ In x sel) /\
    Py.flatten (Py.values (make_Kd a o sel)) =
    Ok (flat_map (index_pair o sel) (a ++ extra)).
Proof.
  intros Hnd Hcover.
  destruct (Kd_keys a o sel Hnd) as [extra [Hk [Hnd' Hin]]].
  exists extra. split; [assumption |]. split; [assumption |].
  rewrite values_get by now apply Kd_keys_NoDup.
  rewrite Hk, <- flatten_map. f_equal. apply map_ext_in.
  intros x Hx. rewrite Kd_get. unfold index_pair.
  destruct (Py.contains x sel) eqn:Es; [reflexivity |].
  destruct (Py.contains x o) eqn:Eo; [reflexivity |].
  apply contains_false in Es, Eo. exfalso.
  apply in_app_or in Hx. destruct Hx as [Hx | Hx].
  - destruct (Hcover x Hx); contradiction.
  - destruct (Hin x Hx); contradiction.
Qed.

(** Decoding the pairs of a list of indices gives these indices back. *)
Lemma decode_index_pairs (o sel l : list Z) :
  (forall x, In x l -> In x sel \/ In x o) ->
  decode o sel (flat_map (index_pair o sel) l) = map Some l.
Proof.
  induction l as [| x l IH]; intros Hcover; [reflexivity |].
  simpl. unfold index_pair at 1.
  destruct (Py.contains x sel) eqn:Es; simpl.
  - unfold lookup_pair. simpl. rewrite Nat2Z.id.
    apply contains_In in Es. rewrite (local_index_nth x sel Es).
    f_equal. apply IH. intros y Hy. apply Hcover. now right.
  - unfold lookup_pair. simpl. rewrite Nat2Z.id.
    apply contains_false in Es.
    destruct (Hcover x (or_introl eq_refl)) as [Hs | Ho]; [contradiction |].
    rewrite (local_index_nth x o Ho).
    f_equal. apply IH. intros y Hy. apply Hcover. now right.
Qed.

(** Decoding against the containers read at the indices. *)
Lemma decode_containers {A : Type} (pos free rigidified : list A)
      (o sel l : list Z) :
  Py.getitems pos o = Ok free ->
  Py.getitems pos sel = Ok rigidified ->
  (forall x, In x l -> In x sel \/ In x o) ->
  Forall2 (fun x r => exists p, r = Some p /\ Py.getitem pos x = Ok p) l
          (decode free rigidified (flat_map (index_pair o sel) l)).
Proof.
  intros Hfree Hrig. induction l as [| x l IH]; intros Hcover;
    [constructor |].
  simpl. unfold index_pair at 1.
  destruct (Py.contains x sel) eqn:Es; simpl.
  - constructor; [| apply IH; intros y Hy; apply Hcover; now right].
    unfold lookup_pair. simpl. rewrite Nat2Z.id.
    apply contains_In in Es.
    destruct (getitems_nth pos sel rigidified Hrig _ x
                (local_index_nth x sel Es)) as [p [Hp Hg]].
    exists p. now split.
  - constructor; [| apply IH; intros y Hy; apply Hcover; now right].
    unfold lookup_pair. simpl. rewrite Nat2Z.id.
    apply contains_false in Es.
    destruct (Hcover x (or_introl eq_refl)) as [Hs | Ho]; [contradiction |].
    destruct (getitems_nth pos o free Hfree _ x
                (local_index_nth x o Ho)) as [p [Hp Hg]].
    exists p. now split.
Qed.

(** ** The selected points *)

Lemma mfilter_loop_getitems (si : list Z) (pts : list Vec3) (ai : list Z)
      (tmp : list Vec3) :
  mfilter_loop si pts ai tmp =
  match Py.getitems pts (filter (fun i => Py.contains i si) ai) with
  | Ok r => Ok (tmp ++ r)
  | Raise e => Raise e
  end.
Proof.
  revert tmp. induction ai as [| i ai IH]; intros tmp; simpl.
  - now rewrite app_nil_r.
  - destruct (Py.contains i si); [| apply IH]. simpl.
    destruct (Py.getitem pts i) as [p |]; [| reflexivity].
    rewrite IH. destruct (Py.getitems pts _); [| reflexivity].
    now rewrite <- app_assoc.
Qed.

Lemma mfilter_getitems (si ai : list Z) (pts : list Vec3) :
  mfilter si ai pts =
  Py.getitems pts (filter (fun i => Py.contains i si) ai).
Proof.
  unfold mfilter. rewrite mfilter_loop_getitems.
  now destruct (Py.getitems pts _).
Qed.

Lemma getitem_app_l {A : Type} (l l' : list A) (i : Z) :
  (0 <= i < Z.of_nat (length l))%Z ->
  Py.getitem (l ++ l') i = Py.getitem l i.
Proof.
  intros Hi.
  destruct (getitem_nonneg l i Hi) as [a [Ha Hn]]. rewrite Ha.
  destruct (getitem_nonneg (l ++ l') i) as [b [Hb Hn']].
  { rewrite length_app. lia. }
  rewrite Hb. rewrite nth_error_app1 in Hn' by lia. congruence.
Qed.

Lemma getitems_app_l {A : Type} (l l' : list A) (idx : list Z) :
  (forall i, In i idx -> (0 <= i < Z.of_nat (length l))%Z) ->
  Py.getitems (l ++ l') idx = Py.getitems l idx.
Proof.
  induction idx as [| i idx IH]; intros H; simpl; [reflexivity |].
  rewrite getitem_app_l by (apply H; now left).
  rewrite IH by (intros j Hj; apply H; now right). reflexivity.
Qed.

Lemma range_S (n : nat) : Py.range (S n) = Py.range n ++ [Z.of_nat n].
Proof. unfold Py.range. now rewrite seq_S, map_app. Qed.

Lemma getitems_selected (pts : list Vec3) (g : list Z) :
  Py.getitems pts (filter (fun i => Py.contains i g)
                          (Py.range (length pts))) =
  Ok (selected_points pts g).
Proof.
  unfold selected_points.
  induction pts as [| p pts IH] using rev_ind; [reflexivity |].
  rewrite length_app, Nat.add_1_r, range_S, filter_app, enumerate_snoc,
    filter_app, map_app.
  apply getitems_app_Ok.
  - rewrite getitems_app_l; [exact IH |].
    intros i Hi. apply filter_In in Hi. now apply range_In.
  - simpl. destruct (Py.contains (Z.of_nat (length pts)) g);
      [| reflexivity]. simpl.
    destruct (getitem_nonneg (pts ++ [p]) (Z.of_nat (length pts)))
      as [a [Ha Hn]].
    { rewrite length_app. simpl. lia. }
    rewrite Ha. rewrite Nat2Z.id, nth_error_app2, Nat.sub_diag in Hn
      by lia.
    simpl in Hn. congruence.
Qed.

Lemma mfilter_range (g : list Z) (pts : list Vec3) :
  mfilter g (Py.range (length pts)) pts = Ok (selected_points pts g).
Proof. rewrite mfilter_getitems. apply getitems_selected. Qed.

Lemma selected_points_length (pts : list Vec3) (g : list Z) :
  length (selected_points pts g) =
  length (filter (fun i => Py.contains i g) (Py.range (length pts))).
Proof.
  eapply getitems_length. apply getitems_selected.
Qed.

Lemma selects_selected (pts : list Vec3) (g : list Z) :
  selects (length pts) g = true ->
  exists p ps, selected_points pts g = p :: ps.
Proof.
  intros H. unfold selects in H. apply existsb_exists in H.
  destruct H as [i [Hi Hg]].
  pose proof (selected_points_length pts g) as Hlen.
  destruct (selected_points pts g) as [| p ps]; [| now exists p, ps].
  assert (Hin : In i (filter (fun i => Py.contains i g)
                             (Py.range (length pts))))
    by (apply filter_In; now split).
  destruct (filter _ _); [contradiction | discriminate].
Qed.

(** ** The barycenter *)

Lemma Vec3_sum_coordinates (pts : list Vec3) (acc : Vec3) :
  vx (fold_left Vec3_add pts acc) == vx acc + fold_right Qplus 0 (map vx pts)
  /\ vy (fold_left Vec3_add pts acc) ==
     vy acc + fold_right Qplus 0 (map vy pts)
  /\ vz (fold_left Vec3_add pts acc) ==
     vz acc + fold_right Qplus 0 (map vz pts).
Proof.
  revert acc. induction pts as [| p pts IH]; intros acc; simpl.
  - repeat split; ring.
  - destruct (IH (Vec3_add acc p)) as [Hx [Hy Hz]].
    rewrite Hx, Hy, Hz. simpl. repeat split; ring.
Qed.

Lemma getBarycenter_mean (pts : list Vec3) (c : Vec3) :
  getBarycenter pts = Ok c ->
  vx c == mean (map vx pts) /\ vy c == mean (map vy pts) /\
  vz c == mean (map vz pts).
Proof.
  unfold getBarycenter. destruct pts as [| p pts]; [discriminate |].
  intros H. injection H as <-. unfold mean. rewrite !length_map.
  destruct (Vec3_sum_coordinates (p :: pts) (mkVec3 0 0 0))
    as [Hx [Hy Hz]].
  unfold Vec3_sum. cbn [vx vy vz].
  rewrite Hx, Hy, Hz. cbn [vx vy vz].
  repeat split; now rewrite Qplus_0_l.
Qed.

(** ** One frame *)

Section Frames.

Variable rt : Runtime.

Lemma rigid_of_frame_offset (frame : list Q) (selectedPoints : list Vec3)
      (c : Vec3) (s : Scene) :
  needs_barycenter frame = true ->
  getBarycenter selectedPoints = Ok c ->
  rigid_of_frame rt frame selectedPoints s =
  (s, Ok (Vec3_list c ++ supplied_orientation rt frame)).
Proof.
  intros Hn Hc.
  destruct frame as [| q0 [| q1 [| q2 [| q3 [| q4 frame]]]]];
    try discriminate;
    unfold rigid_of_frame, bind, lift, ret; simpl; now rewrite Hc.
Qed.

Lemma rigid_of_frame_empty (frame : list Q) (s : Scene) :
  needs_barycenter frame = true ->
  rigid_of_frame rt frame [] s = (s, Raise EmptyInputError).
Proof.
  intros Hn.
  destruct frame as [| q0 [| q1 [| q2 [| q3 [| q4 frame]]]]];
    try discriminate; reflexivity.
Qed.

Lemma rigid_of_frame_pose (frame : list Q) (selectedPoints : list Vec3)
      (s : Scene) :
  accepted frame = true ->
  needs_barycenter frame = false ->
  rigid_of_frame rt frame selectedPoints s =
  (s, Ok (firstn 3 frame ++ supplied_orientation rt frame)).
Proof.
  intros Ha Hn.
  destruct frame
    as [| q0 [| q1 [| q2 [| q3 [| q4 [| q5 [| q6 [| q7 frame]]]]]]]];
    try discriminate; reflexivity.
Qed.

Lemma rigid_of_frame_rejected (frame : list Q)
      (selectedPoints : list Vec3) (s : Scene) :
  accepted frame = false ->
  rigid_of_frame rt frame selectedPoints s =
  (fst (emit (msg_error frame_size_text) s), Raise NotImplementedError).
Proof.
  unfold accepted. intros Ha.
  apply orb_false_iff in Ha. destruct Ha as [Ha H7].
  apply orb_false_iff in Ha. destruct Ha as [Ha H6].
  apply orb_false_iff in Ha. destruct Ha as [H3 H4].
  unfold rigid_of_frame. now rewrite H3, H4, H6, H7.
Qed.

(** A frame of an accepted arity is never answered by the error of an
    unknown size, and leaves the scene as it is. *)
Lemma rigid_of_frame_accepted (frame : list Q)
      (selectedPoints : list Vec3) (s : Scene) :
  accepted frame = true ->
  exists r, rigid_of_frame rt frame selectedPoints s = (s, r) /\
            r <> Raise NotImplementedError /\ r <> Raise IndexError.
Proof.
  intros Ha. destruct (needs_barycenter frame) eqn:Hn.
  - destruct (getBarycenter selectedPoints) as [c |] eqn:Hc.
    + rewrite (rigid_of_frame_offset _ _ c s Hn Hc).
      eexists. split; [reflexivity | split; discriminate].
    + destruct selectedPoints; [| discriminate].
      rewrite (rigid_of_frame_empty _ s Hn).
      eexists. split; [reflexivity | split; discriminate].
  - rewrite (rigid_of_frame_pose _ selectedPoints s Ha Hn).
    eexists. split; [reflexivity | split; discriminate].
Qed.

(** ** The loop over the groups *)

Lemma advance_nil (acc : Selection) (i : nat) : advance acc i [] [] = acc.
Proof.
  unfold advance. simpl. rewrite !app_nil_r. now destruct acc.
Qed.

Lemma group_loop_ready (pts : list Vec3) (groupIndices : list (list Z))
      (frames : list (list Q)) (i : nat) (acc : Selection) (s : Scene) :
  frames_ready (length pts) groupIndices frames = true ->
  exists rs,
    group_loop rt (Py.range (length pts)) pts i groupIndices frames acc s =
    (s, Ok (advance acc i groupIndices rs)) /\
    Forall2 (synthesized rt pts) (combine groupIndices frames) rs.
Proof.
  revert frames i acc.
  induction groupIndices as [| g gs IH]; intros frames i acc Hr.
  - destruct frames; [| discriminate]. exists []. split; [| constructor].
    simpl. unfold ret. now rewrite advance_nil.
  - destruct frames as [| f fs]; [discriminate |]. simpl in Hr.
    apply andb_true_iff in Hr. destruct Hr as [Hr Hrest].
    apply andb_true_iff in Hr. destruct Hr as [Ha Hb].
    simpl. unfold bind at 1, lift at 1. rewrite mfilter_range.
    assert (Hstep : exists r,
               rigid_of_frame rt f (selected_points pts g) s = (s, Ok r) /\
               synthesized rt pts (g, f) r).
    { destruct (needs_barycenter f) eqn:Hn; simpl in Hb.
      - destruct (selects_selected pts g Hb) as [p [ps Hsel]].
        destruct (getBarycenter (selected_points pts g)) as [c |] eqn:Hc;
          [| rewrite Hsel in Hc; discriminate].
        exists (Vec3_list c ++ supplied_orientation rt f). split.
        + now apply rigid_of_frame_offset.
        + exists (Vec3_list c).
          split; [reflexivity | split; [reflexivity | split]]; simpl.
          * intros _. now exists c.
          * rewrite Hn. discriminate.
      - exists (firstn 3 f ++ supplied_orientation rt f). split.
        + now apply rigid_of_frame_pose.
        + exists (firstn 3 f).
          split; [reflexivity | split; [| split]]; simpl.
          * unfold accepted in Ha.
            destruct f as [| q0 [| q1 [| q2 f]]]; try discriminate.
            reflexivity.
          * rewrite Hn. discriminate.
          * reflexivity. }
    destruct Hstep as [r [Hrun Hsyn]].
    unfold bind at 1. rewrite Hrun.
    destruct (IH fs (S i)
                 {| rigids := rigids acc ++ [r];
                    selectedIndices := selectedIndices acc ++ g;
                    indicesMap := indicesMap acc ++ repeat i (length g) |}
                 Hrest) as [rs [Hloop Hall]].
    exists (r :: rs). split; [| now constructor].
    rewrite Hloop. unfold advance. simpl. now rewrite <- !app_assoc.
Qed.

(** The loop changes nothing in the scene but the messages, raises no
    index error on a well-formed source when groups and frames are as
    many, and a run that succeeds does not depend on the scene. *)
Lemma group_loop_scene (a : list Z) (pts : list Vec3)
      (groupIndices : list (list Z)) (frames : list (list Q)) (i : nat)
      (acc : Selection) (s s' : Scene) (r : result Selection) :
  group_loop rt a pts i groupIndices frames acc s = (s', r) ->
  targetObject s' = targetObject s /\ sourceObject s' = sourceObject s.
Proof.
  revert frames i acc.
  induction groupIndices as [| g gs IH]; intros frames i acc H; simpl in H.
  - unfold ret in H. injection H as <- _. now split.
  - unfold bind at 1, lift at 1 in H.
    destruct (mfilter g a pts) as [sp |].
    + destruct frames as [| f fs].
      * unfold raise in H. injection H as <- _. now split.
      * unfold bind at 1 in H.
        destruct (accepted f) eqn:Ha.
        -- destruct (rigid_of_frame_accepted f sp s Ha) as [r' [Hr _]].
           rewrite Hr in H. destruct r'.
           ++ now apply IH in H.
           ++ injection H as <- _. now split.
        -- rewrite (rigid_of_frame_rejected f sp s Ha) in H.
           injection H as <- _. now split.
    + injection H as <- _. now split.
Qed.

Lemma group_loop_Ok (a : list Z) (pts : list Vec3)
      (groupIndices : list (list Z)) (frames : list (list Q)) (i : nat)
      (acc sel : Selection) (s s' : Scene) :
  group_loop rt a pts i groupIndices frames acc s = (s', Ok sel) ->
  s' = s /\
  (forall s0, group_loop rt a pts i groupIndices frames acc s0 =
              (s0, Ok sel)) /\
  selectedIndices sel = selectedIndices acc ++ concat groupIndices /\
  indicesMap sel = indicesMap acc ++ owners i groupIndices.
Proof.
  revert frames i acc.
  induction groupIndices as [| g gs IH]; intros frames i acc H; simpl in H.
  - unfold ret in H. injection H as <- <-. simpl.
    rewrite !app_nil_r. repeat split.
  - unfold bind at 1, lift at 1 in H.
    destruct (mfilter g a pts) as [sp |] eqn:Hm; [| discriminate].
    destruct frames as [| f fs]; [discriminate |].
    unfold bind at 1 in H.
    destruct (accepted f) eqn:Ha.
    + destruct (rigid_of_frame_accepted f sp s Ha) as [r' [Hr _]].
      rewrite Hr in H. destruct r' as [r |]; [| discriminate].
      apply IH in H. destruct H as [-> [Hany [Hsel Hmap]]].
      simpl in Hsel, Hmap. rewrite <- app_assoc in Hsel, Hmap.
      repeat split; try assumption.
      intros s0. simpl. unfold bind at 1, lift at 1. rewrite Hm.
      unfold bind at 1.
      destruct (rigid_of_frame_accepted f sp s0 Ha) as [r0 [Hr0 _]].
      assert (r0 = Ok r).
      { destruct (needs_barycenter f) eqn:Hn.
        - destruct (getBarycenter sp) as [c |] eqn:Hc.
          + rewrite (rigid_of_frame_offset _ _ c s Hn Hc) in Hr.
            rewrite (rigid_of_frame_offset _ _ c s0 Hn Hc) in Hr0.
            congruence.
          + destruct sp; [| discriminate].
            rewrite (rigid_of_frame_empty _ _ Hn) in Hr. discriminate.
        - rewrite (rigid_of_frame_pose _ _ s Ha Hn) in Hr.
          rewrite (rigid_of_frame_pose _ _ s0 Ha Hn) in Hr0.
          congruence. }
      subst r0. rewrite Hr0. apply Hany.
    + rewrite (rigid_of_frame_rejected f sp s Ha) in H. discriminate.
Qed.

End Frames.

(** ** The second half of the function *)

Lemma update_last_snoc {A : Type} (f : A -> A) (l : list A) (a : A) :
  update_last f (l ++ [a]) = l ++ [f a].
Proof.
  induction l as [| b l IH]; [reflexivity |].
  simpl. rewrite IH. destruct l; reflexivity.
Qed.

Lemma last_snoc {A : Type} (l : list A) (a : A) :
  last (map Some (l ++ [a])) None = Some a.
Proof. rewrite map_app. simpl. apply last_last. Qed.

Ltac scene_simpl :=
  cbn [targetObject messages sourceObject solver integration
       LinearSolverConstraintCorrection remove_solver remove_integration
       remove_LinearSolverConstraintCorrection].

Section Assemble.

Variable rt : Runtime.

Lemma assemble_Ok (pos : list Vec3) (a : list Z) (sel : Selection)
      (s : Scene) (t : list Node) (child : Node) (ip : list Z)
      (free rp : list Vec3) :
  targetObject s = t ++ [child] ->
  Py.flatten
    (Py.values
       (make_Kd a (list_set_difference rt a (selectedIndices sel))
                (selectedIndices sel))) = Ok ip ->
  Py.getitems pos (list_set_difference rt a (selectedIndices sel)) =
  Ok free ->
  Py.getitems pos (selectedIndices sel) = Ok rp ->
  components_present (sourceObject s) ->
  assemble rt pos a sel s =
  ({| messages := messages s;
      targetObject :=
        t ++ [built child free (rigids sel) rp (indicesMap sel)];
      sourceObject := coupled (sourceObject s) ip |},
   Ok (built child free (rigids sel) rp (indicesMap sel))).
Proof.
  intros Ht Hip Hfree Hrp [Hs [Hi Hl]].
  unfold assemble, bind, lift. rewrite Hip, Hfree.
  unfold modify_ero at 1 2. cbn [targetObject messages sourceObject].
  rewrite Hrp.
  unfold modify_ero, removeObject, set_source, get_ero.
  cbn [targetObject messages sourceObject].
  rewrite Hs. scene_simpl. rewrite Hi. scene_simpl. rewrite Hl.
  scene_simpl.
  rewrite Ht, !update_last_snoc, last_snoc. reflexivity.
Qed.

Lemma assemble_missing_component (pos : list Vec3) (a : list Z)
      (sel : Selection) (s : Scene) (t : list Node) (child : Node)
      (ip : list Z) (free rp : list Vec3) :
  targetObject s = t ++ [child] ->
  Py.flatten
    (Py.values
       (make_Kd a (list_set_difference rt a (selectedIndices sel))
                (selectedIndices sel))) = Ok ip ->
  Py.getitems pos (list_set_difference rt a (selectedIndices sel)) =
  Ok free ->
  Py.getitems pos (selectedIndices sel) = Ok rp ->
  ~ components_present (sourceObject s) ->
  exists s',
    assemble rt pos a sel s = (s', Raise AttributeError) /\
    messages s' = messages s /\
    targetObject s' =
    t ++ [unfinished child free (rigids sel) rp (indicesMap sel)] /\
    mappings (sourceObject s') = mappings (sourceObject s).
Proof.
  intros Ht Hip Hfree Hrp Hc.
  unfold assemble, bind, lift. rewrite Hip, Hfree.
  unfold modify_ero at 1 2. scene_simpl. rewrite Hrp.
  unfold modify_ero, removeObject, set_source, get_ero. scene_simpl.
  rewrite Ht, !update_last_snoc.
  destruct (solver (sourceObject s)) eqn:Hs; scene_simpl.
  - destruct (integration (sourceObject s)) eqn:Hi; scene_simpl.
    + destruct (LinearSolverConstraintCorrection (sourceObject s)) eqn:Hl.
      * exfalso. apply Hc. now repeat split.
      * eexists. split; [reflexivity |]. now repeat split.
    + eexists. split; [reflexivity |]. now repeat split.
  - eexists. split; [reflexivity |]. now repeat split.
Qed.

Lemma assemble_Ok_inv (pos : list Vec3) (a : list Z) (sel : Selection)
      (s s' : Scene) (ero : Node) :
  assemble rt pos a sel s = (s', Ok ero) ->
  components_present (sourceObject s) /\
  exists ip free rp,
    Py.flatten
      (Py.values
         (make_Kd a (list_set_difference rt a (selectedIndices sel))
                  (selectedIndices sel))) = Ok ip /\
    Py.getitems pos (list_set_difference rt a (selectedIndices sel)) =
    Ok free /\
    Py.getitems pos (selectedIndices sel) = Ok rp.
Proof.
  unfold assemble, bind, lift.
  destruct (Py.flatten _) as [ip |]; [| discriminate].
  destruct (Py.getitems pos (list_set_difference _ _ _)) as [free |];
    [| discriminate].
  unfold modify_ero at 1 2. scene_simpl.
  destruct (Py.getitems pos (selectedIndices sel)) as [rp |];
    [| discriminate].
  unfold modify_ero, removeObject, set_source, get_ero. scene_simpl.
  destruct (solver (sourceObject s)) eqn:Hs; scene_simpl;
    [| discriminate].
  destruct (integration (sourceObject s)) eqn:Hi; scene_simpl;
    [| discriminate].
  destruct (LinearSolverConstraintCorrection (sourceObject s)) eqn:Hl;
    [| discriminate].
  intros _. split; [now repeat split |]. now exists ip, free, rp.
Qed.

Lemma assemble_rigidified_IndexError (pos : list Vec3) (a : list Z)
      (sel : Selection) (s : Scene) (ip : list Z) (free : list Vec3) :
  Py.flatten
    (Py.values
       (make_Kd a (list_set_difference rt a (selectedIndices sel))
                (selectedIndices sel))) = Ok ip ->
  Py.getitems pos (list_set_difference rt a (selectedIndices sel)) =
  Ok free ->
  Py.getitems pos (selectedIndices sel) = Raise IndexError ->
  exists s',
    assemble rt pos a sel s = (s', Raise IndexError) /\
    messages s' = messages s /\ sourceObject s' = sourceObject s.
Proof.
  intros Hip Hfree Hrp.
  unfold assemble, bind, lift. rewrite Hip, Hfree.
  unfold modify_ero at 1 2. scene_simpl. rewrite Hrp.
  eexists. split; [reflexivity |]. now split.
Qed.

End Assemble.

(** ** The whole function *)

Lemma frames_ready_length (n : nat) (groupIndices : list (list Z))
      (frames : list (list Q)) :
  frames_ready n groupIndices frames = true ->
  length groupIndices = length frames.
Proof.
  revert frames. induction groupIndices as [| g gs IH]; intros [| f fs] H;
    try discriminate; [reflexivity |].
  simpl in H. apply andb_true_iff in H. destruct H as [_ H].
  simpl. f_equal. now apply IH.
Qed.

Section Whole.

Variable rt : Runtime.

Lemma Rigidify_unfold (groupIndices : list (list Z))
      (frames : option (list (list Q))) (name : option string)
      (frameOrientation : option (list (list Q))) (s : Scene) :
  Rigidify rt groupIndices frames name frameOrientation s =
  let fs := resolve_frames groupIndices frames frameOrientation in
  let s0 := warned frameOrientation s in
  let src := sourceObject s in
  if negb (Nat.eqb (length groupIndices) (length fs))
  then (s0, Raise AssertionError)
  else
    match group_loop rt (container_points src) (dofs_position src) 0
                     groupIndices fs no_selection
                     (fst (addChild (child_name name src) s0)) with
    | (s2, Ok sel) =>
        assemble rt (container_position src) (container_points src) sel s2
    | (s2, Raise e) => (s2, Raise e)
    end.
Proof.
  unfold Rigidify, resolve_frames, warned, child_name, no_selection.
  destruct frameOrientation as [fo |]; [| destruct frames as [f |]];
    unfold bind, emit, ret, raise, get_source, addChild; simpl;
    match goal with
    | |- context [negb ?b] => destruct (negb b)
    end; reflexivity.
Qed.

Lemma warned_scene (frameOrientation : option (list (list Q)))
      (s : Scene) :
  targetObject (warned frameOrientation s) = targetObject s /\
  sourceObject (warned frameOrientation s) = sourceObject s.
Proof. destruct frameOrientation; now split. Qed.

(** On a well-formed source with its components, frames that are ready
    and indices Python can read, the function returns. *)
Lemma Rigidify_succeeds (groupIndices : list (list Z))
      (frames : option (list (list Q))) (name : option string)
      (frameOrientation : option (list (list Q))) (s : Scene) :
  let src := sourceObject s in
  let n := length (container_position src) in
  let fs := resolve_frames groupIndices frames frameOrientation in
  let sel := concat groupIndices in
  let other := list_set_difference rt (Py.range n) sel in
  well_formed src ->
  components_present src ->
  frames_ready n groupIndices fs = true ->
  (forall i, In i sel -> (- Z.of_nat n <= i < Z.of_nat n)%Z) ->
  exists rs free rp extra,
    Forall2 (synthesized rt (dofs_position src)) (combine groupIndices fs)
            rs /\
    NoDup (Py.range n ++ extra) /\
    (forall x, In x extra -> In x sel) /\
    Py.getitems (container_position src) other = Ok free /\
    Py.getitems (container_position src) sel = Ok rp /\
    let ip := flat_map (index_pair other sel) (Py.range n ++ extra) in
    let ero := built (new_child (child_name name src)) free rs rp
                     (owners 0 groupIndices) in
    Rigidify rt groupIndices frames name frameOrientation s =
    ({| messages := messages (warned frameOrientation s);
        targetObject := targetObject s ++ [ero];
        sourceObject := coupled src ip |}, Ok ero).
Proof.
  intros src n fs sel other [Hpoints Hdofs] Hcomp Hready Hvalid.
  rewrite Rigidify_unfold. cbv zeta. fold src fs.
  rewrite (frames_ready_length _ _ _ Hready), Nat.eqb_refl. simpl negb.
  cbv iota. rewrite Hpoints. fold n.
  pose proof (group_loop_ready rt (dofs_position src) groupIndices fs 0
                no_selection
                (fst (addChild (child_name name src)
                               (warned frameOrientation s)))) as Hloop.
  rewrite Hdofs in Hloop. fold n in Hloop.
  destruct (Hloop Hready) as [rs [Hrun Hsyn]]. clear Hloop.
  rewrite Hrun. unfold advance, no_selection. simpl app. fold sel.
  assert (Hin_other : forall x, In x other <->
                                In x (Py.range n) /\ ~ In x sel)
    by (intros x; apply list_set_difference_In).
  destruct (Kd_flatten (Py.range n) other sel (range_NoDup n))
    as [extra [Hnd [Hextra Hflat]]].
  { intros x Hx. destruct (in_dec Z.eq_dec x sel) as [Hs | Hs];
      [now left | right]. apply Hin_other. now split. }
  assert (Hextra' : forall x, In x extra -> In x sel).
  { intros x Hx. destruct (Hextra x Hx) as [Ho | Hs]; [| assumption].
    exfalso. apply Hin_other in Ho. destruct Ho as [Hr _].
    exact (NoDup_app_In _ _ x Hnd Hr Hx). }
  destruct (getitems_valid (container_position src) other) as [free Hfree].
  { intros i Hi. apply Hin_other in Hi. destruct Hi as [Hi _].
    apply range_In in Hi. fold n. lia. }
  destruct (getitems_valid (container_position src) sel) as [rp Hrp].
  { intros i Hi. fold n. now apply Hvalid. }
  exists rs, free, rp, extra.
  split; [assumption |]. split; [assumption |]. split; [assumption |].
  split; [assumption |]. split; [assumption |]. cbv zeta.
  erewrite assemble_Ok; simpl selectedIndices; simpl rigids;
    simpl indicesMap; try eassumption.
  - destruct (warned_scene frameOrientation s) as [_ Hsrc].
    simpl. rewrite Hsrc. reflexivity.
  - simpl. destruct (warned_scene frameOrientation s) as [Ht _].
    rewrite Ht. reflexivity.
  - simpl. destruct (warned_scene frameOrientation s) as [_ Hsrc].
    now rewrite Hsrc.
Qed.

End Whole.

(** ** Pairs and places *)

Lemma index_pair_selected (o sel : list Z) (k : nat) (x : Z) :
  NoDup sel -> nth_error sel k = Some x ->
  index_pair o sel x = [1%Z; Z.of_nat k].
Proof.
  intros Hnd Hk. unfold index_pair.
  assert (Hin : In x sel) by (eapply nth_error_In; eassumption).
  apply contains_In in Hin. rewrite Hin.
  now rewrite (local_index_NoDup sel k x Hnd Hk).
Qed.

Lemma index_pair_other (o sel : list Z) (k : nat) (x : Z) :
  NoDup o -> ~ In x sel -> nth_error o k = Some x ->
  index_pair o sel x = [0%Z; Z.of_nat k].
Proof.
  intros Hnd Hs Hk. unfold index_pair.
  apply contains_false in Hs. rewrite Hs.
  now rewrite (local_index_NoDup o k x Hnd Hk).
Qed.

Lemma index_pair_length (o sel : list Z) (x : Z) :
  length (index_pair o sel x) = 2%nat.
Proof. unfold index_pair. now destruct (Py.contains x sel). Qed.

Lemma pair_at_flat_map (f : Z -> list Z) (l : list Z) (k : nat) (x : Z) :
  (forall y, length (f y) = 2%nat) ->
  nth_error l k = Some x ->
  pair_at (flat_map f l) k = f x.
Proof.
  intros Hlen. unfold pair_at. revert k.
  induction l as [| y l IH]; intros k Hk; [destruct k; discriminate |].
  destruct k as [| k]; simpl in Hk.
  - injection Hk as ->. simpl skipn. simpl flat_map.
    rewrite firstn_app, <- (Hlen x), firstn_all, Nat.sub_diag.
    simpl. apply app_nil_r.
  - simpl flat_map. replace (2 * S k)%nat with (length (f y) + 2 * k)%nat
      by (rewrite Hlen; lia).
    rewrite skipn_app, skipn_all2 by lia.
    replace (length (f y) + 2 * k - length (f y))%nat with (2 * k)%nat
      by lia.
    simpl. now apply IH.
Qed.

Lemma getitems_Forall2 {A : Type} (pos : list A) (idx : list Z)
      (l : list (option A)) :
  Forall2 (fun x r => exists p, r = Some p /\ Py.getitem pos x = Ok p)
          idx l ->
  exists xs, Py.getitems pos idx = Ok xs /\ l = map Some xs.
Proof.
  induction 1 as [| x r idx l [p [-> Hp]] _ [xs [Hxs ->]]].
  - now exists [].
  - exists (p :: xs). simpl. now rewrite Hp, Hxs.
Qed.

Lemma getitems_range {A : Type} (pos : list A) :
  Py.getitems pos (Py.range (length pos)) = Ok pos.
Proof.
  induction pos as [| p pos IH] using rev_ind; [reflexivity |].
  rewrite length_app, Nat.add_1_r, range_S.
  apply getitems_app_Ok.
  - rewrite getitems_app_l; [exact IH |].
    intros i Hi. now apply range_In.
  - simpl.
    destruct (getitem_nonneg (pos ++ [p]) (Z.of_nat (length pos)))
      as [a [Ha Hn]].
    { rewrite length_app. simpl. lia. }
    rewrite Ha. rewrite Nat2Z.id, nth_error_app2, Nat.sub_diag in Hn
      by lia.
    simpl in Hn. congruence.
Qed.

(** With every selected index in the range of the cloud, the keys of [Kd]
    are those of the container and no more. *)
Lemma no_extra (n : nat) (sel extra : list Z) :
  NoDup (Py.range n ++ extra) ->
  (forall x, In x extra -> In x sel) ->
  (forall i, In i sel -> (0 <= i < Z.of_nat n)%Z) ->
  extra = [].
Proof.
  intros Hnd Hsel Hrange. destruct extra as [| x extra]; [reflexivity |].
  exfalso. apply (NoDup_app_In _ _ x Hnd).
  - apply range_In, Hrange, Hsel. now left.
  - now left.
Qed.

Lemma decode_nth {A : Type} (free rigidified : list A) (ip : list Z)
      (i : nat) :
  nth_error (decode free rigidified ip) i =
  match pair_at ip i with
  | [tag; k] => Some (lookup_pair free rigidified tag k)
  | _ => None
  end.
Proof.
  revert ip. induction i as [| i IH]; intros ip.
  - destruct ip as [| t [| k rest]]; reflexivity.
  - unfold pair_at. replace (2 * S i)%nat with (S (S (2 * i))) by lia.
    destruct ip as [| t [| k rest]]; try reflexivity.
    cbn [decode nth_error skipn]. now rewrite IH.
Qed.

(** ** Runs on indices in the range of the cloud *)

Section InRange.

Variable rt : Runtime.

Lemma Rigidify_in_range (groupIndices : list (list Z))
      (frames : option (list (list Q))) (name : option string)
      (frameOrientation : option (list (list Q))) (s : Scene) :
  let src := sourceObject s in
  let n := length (container_position src) in
  let fs := resolve_frames groupIndices frames frameOrientation in
  let sel := concat groupIndices in
  let other := list_set_difference rt (Py.range n) sel in
  well_formed src ->
  components_present src ->
  frames_ready n groupIndices fs = true ->
  (forall i, In i sel -> (0 <= i < Z.of_nat n)%Z) ->
  exists rs free rp,
    Forall2 (synthesized rt (dofs_position src)) (combine groupIndices fs)
            rs /\
    Py.getitems (container_position src) other = Ok free /\
    Py.getitems (container_position src) sel = Ok rp /\
    let ip := flat_map (index_pair other sel) (Py.range n) in
    let ero := built (new_child (child_name name src)) free rs rp
                     (owners 0 groupIndices) in
    Rigidify rt groupIndices frames name frameOrientation s =
    ({| messages := messages (warned frameOrientation s);
        targetObject := targetObject s ++ [ero];
        sourceObject := coupled src ip |}, Ok ero).
Proof.
  intros src n fs sel other Hwf Hcomp Hready Hrange.
  destruct (Rigidify_succeeds rt groupIndices frames name frameOrientation
              s Hwf Hcomp Hready)
    as [rs [free [rp [extra [Hsyn [Hnd [Hextra [Hfree [Hrp Hrun]]]]]]]]].
  { intros i Hi. apply Hrange in Hi. unfold n, src in Hi. lia. }
  exists rs, free, rp.
  split; [assumption |]. split; [assumption |]. split; [assumption |].
  rewrite (no_extra n sel extra Hnd Hextra Hrange), app_nil_r in Hrun.
  exact Hrun.
Qed.

Lemma other_cover (n : nat) (sel : list Z) (x : Z) :
  In x (Py.range n) ->
  In x sel \/ In x (list_set_difference rt (Py.range n) sel).
Proof.
  intros Hx. destruct (in_dec Z.eq_dec x sel) as [Hs | Hs];
    [now left | right].
  apply list_set_difference_In. now split.
Qed.

End InRange.

(** * The claims *)

(** C1. On a cloud whose groups are disjoint, the flattened index pairs
    are those of the global indices 0, 1, ..., n-1 taken in ascending
    order: the pair of a free index is tag 0 with its place among the
    other indices, the pair of a rigidified index is tag 1 with its place
    among the selected indices, and decoding the sequence gives the
    ascending range back. *)
Theorem index_pairs_follow_ascending_global_order
        (rt : Runtime) (groupIndices : list (list Z))
        (frames : option (list (list Q))) (name : option string)
        (frameOrientation : option (list (list Q))) (s : Scene) :
  let src := sourceObject s in
  let n := length (container_position src) in
  let fs := resolve_frames groupIndices frames frameOrientation in
  let sel := concat groupIndices in
  let other := list_set_difference rt (Py.range n) sel in
  well_formed src ->
  components_present src ->
  frames_ready n groupIndices fs = true ->
  (forall i, In i sel -> (0 <= i < Z.of_nat n)%Z) ->
  NoDup sel ->
  exists s' ero,
    Rigidify rt groupIndices frames name frameOrientation s = (s', Ok ero) /\
    indexPairs_of s' = flat_map (index_pair other sel) (Py.range n) /\
    (forall k x, nth_error other k = Some x ->
                 index_pair other sel x = [0%Z; Z.of_nat k]) /\
    (forall k x, nth_error sel k = Some x ->
                 index_pair other sel x = [1%Z; Z.of_nat k]) /\
    decode other sel (indexPairs_of s') = map Some (Py.range n).
Proof.
  intros src n fs sel other Hwf Hcomp Hready Hrange Hnd.
  destruct (Rigidify_in_range rt groupIndices frames name frameOrientation s
              Hwf Hcomp Hready Hrange)
    as [rs [free [rp [_ [_ [_ Hrun]]]]]].
  cbv zeta in Hrun. fold src n fs sel other in Hrun.
  eexists. eexists. split; [exact Hrun |].
  assert (Hip : indexPairs_of
                  {| messages := messages (warned frameOrientation s);
                     targetObject :=
                       targetObject s ++
                       [built (new_child (child_name name src)) free rs rp
                              (owners 0 groupIndices)];
                     sourceObject :=
                       coupled src
                         (flat_map (index_pair other sel) (Py.range n)) |} =
                flat_map (index_pair other sel) (Py.range n)).
  { unfold indexPairs_of, coupled. simpl. apply last_last. }
  rewrite Hip. split; [reflexivity |]. split; [| split].
  - intros k x Hk. apply index_pair_other; [| | assumption].
    + apply list_set_difference_NoDup.
    + assert (Hin : In x other) by (eapply nth_error_In; eassumption).
      apply list_set_difference_In in Hin. tauto.
  - intros k x Hk. now apply index_pair_selected.
  - apply decode_index_pairs. intros x Hx. now apply other_cover.
Qed.

(** C2. Looking a global index up through its index pair, in the free
    container for tag 0 and in the rigidified container for tag 1, gives
    the position the cloud holds at that index. *)
Theorem reconstruction_round_trip
        (rt : Runtime) (groupIndices : list (list Z))
        (frames : option (list (list Q))) (name : option string)
        (frameOrientation : option (list (list Q))) (s : Scene) :
  let src := sourceObject s in
  let n := length (container_position src) in
  let fs := resolve_frames groupIndices frames frameOrientation in
  well_formed src ->
  components_present src ->
  frames_ready n groupIndices fs = true ->
  (forall i, In i (concat groupIndices) -> (0 <= i < Z.of_nat n)%Z) ->
  exists s' ero free rigidified,
    Rigidify rt groupIndices frames name frameOrientation s = (s', Ok ero) /\
    DeformableParts ero = Some free /\
    RigidifiedParticules ero = Some rigidified /\
    decode free rigidified (indexPairs_of s') =
    map Some (container_position src) /\
    forall i p,
      nth_error (container_position src) i = Some p ->
      exists tag k,
        pair_at (indexPairs_of s') i = [tag; k] /\
        lookup_pair free rigidified tag k = Some p.
Proof.
  intros src n fs Hwf Hcomp Hready Hrange.
  destruct (Rigidify_in_range rt groupIndices frames name frameOrientation s
              Hwf Hcomp Hready Hrange)
    as [rs [free [rp [_ [Hfree [Hrp Hrun]]]]]].
  cbv zeta in Hrun. fold src n fs in Hrun, Hfree, Hrp.
  set (sel := concat groupIndices) in *.
  set (other := list_set_difference rt (Py.range n) sel) in *.
  eexists. eexists. exists free, rp. split; [exact Hrun |].
  split; [reflexivity |]. split; [reflexivity |].
  assert (Hip : indexPairs_of
                  {| messages := messages (warned frameOrientation s);
                     targetObject :=
                       targetObject s ++
                       [built (new_child (child_name name src)) free rs rp
                              (owners 0 groupIndices)];
                     sourceObject :=
                       coupled src
                         (flat_map (index_pair other sel) (Py.range n)) |} =
                flat_map (index_pair other sel) (Py.range n)).
  { unfold indexPairs_of, coupled. simpl. apply last_last. }
  rewrite Hip.
  assert (Hdec : decode free rp
                        (flat_map (index_pair other sel) (Py.range n)) =
                 map Some (container_position src)).
  { destruct (getitems_Forall2 (container_position src) (Py.range n)
                (decode free rp
                        (flat_map (index_pair other sel) (Py.range n))))
      as [xs [Hxs Hl]].
    - apply (decode_containers (container_position src) free rp other sel);
        try assumption.
      intros x Hx. now apply other_cover.
    - unfold n in Hxs. rewrite getitems_range in Hxs. injection Hxs as <-.
      exact Hl. }
  split; [exact Hdec |].
  intros i p Hi.
  pose proof (decode_nth free rp
                (flat_map (index_pair other sel) (Py.range n)) i) as Hn.
  rewrite Hdec, nth_error_map, Hi in Hn. simpl in Hn.
  assert (Hlt : (i < n)%nat) by (apply nth_error_Some; congruence).
  rewrite (pair_at_flat_map (index_pair other sel) (Py.range n) i
             (Z.of_nat i) (index_pair_length other sel)
             (range_nth n i Hlt)) in Hn |- *.
  pose proof (index_pair_length other sel (Z.of_nat i)) as Hlen.
  destruct (index_pair other sel (Z.of_nat i)) as [| t [| k [| ? ?]]];
    try discriminate.
  exists t, k. split; [reflexivity |]. congruence.
Qed.

Ltac sample_range :=
  let i := fresh "i" in
  let Hi := fresh "Hi" in
  intros i Hi; simpl in Hi; cbn; lia.

Ltac sample_NoDup :=
  repeat constructor; simpl; intuition lia.

(** The scenario of the specification: five points, the group [1, 3] and
    the default frame. *)
Lemma index_pairs_follow_ascending_global_order_witness :
  exists s' ero,
    Rigidify ordered_runtime [[1; 3]%Z] None None None (sample_scene 5) =
    (s', Ok ero) /\
    indexPairs_of s' = [0; 0; 1; 0; 0; 1; 1; 1; 0; 2]%Z.
Proof.
  destruct (index_pairs_follow_ascending_global_order
              ordered_runtime [[1; 3]%Z] None None None (sample_scene 5))
    as [s' [ero [Hrun [Hip _]]]].
  - split; reflexivity.
  - repeat split.
  - reflexivity.
  - sample_range.
  - sample_NoDup.
  - exists s', ero. split; [exact Hrun |]. rewrite Hip. reflexivity.
Defined.

Lemma reconstruction_round_trip_witness :
  exists s' ero free rigidified,
    Rigidify ordered_runtime [[1; 3]%Z] None None None (sample_scene 5) =
    (s', Ok ero) /\
    decode free rigidified (indexPairs_of s') =
    map Some (map sample_point [0; 1; 2; 3; 4]%Z).
Proof.
  destruct (reconstruction_round_trip
              ordered_runtime [[1; 3]%Z] None None None (sample_scene 5))
    as [s' [ero [free [rigidified [Hrun [_ [_ [Hdec _]]]]]]]].
  - split; reflexivity.
  - repeat split.
  - reflexivity.
  - sample_range.
  - exists s', ero, free, rigidified. split; [exact Hrun | exact Hdec].
Defined.

(** ** Runs that stop in the loop *)

Section Stops.

Variable rt : Runtime.

Lemma group_loop_step (pts : list Vec3) (g : list Z) (gs : list (list Z))
      (f : list Q) (fs : list (list Q)) (i : nat) (acc : Selection)
      (s : Scene) :
  (accepted f && (negb (needs_barycenter f) || selects (length pts) g))%bool
  = true ->
  exists r,
    group_loop rt (Py.range (length pts)) pts i (g :: gs) (f :: fs) acc s =
    group_loop rt (Py.range (length pts)) pts (S i) gs fs
               {| rigids := rigids acc ++ [r];
                  selectedIndices := selectedIndices acc ++ g;
                  indicesMap := indicesMap acc ++ repeat i (length g) |}
               s /\
    synthesized rt pts (g, f) r.
Proof.
  intros Hr.
  destruct (group_loop_ready rt pts [g] [f] i acc s) as [rs [Hone Hsyn]].
  { simpl. now rewrite Hr. }
  inversion Hsyn as [| ? r ? rest Hr1 Hnil]; subst.
  inversion Hnil; subst. clear Hsyn Hnil.
  exists r. split; [| assumption].
  simpl in Hone. simpl.
  unfold bind at 1, lift at 1 in Hone. unfold bind at 1, lift at 1.
  destruct (mfilter g (Py.range (length pts)) pts) as [sp |];
    [| discriminate].
  unfold bind at 1 in Hone. unfold bind at 1.
  destruct (rigid_of_frame rt f sp s) as [s1 [r' |]]; [| discriminate].
  unfold ret in Hone. injection Hone as -> Hacc.
  apply app_inv_head in Hacc. injection Hacc as ->. reflexivity.
Qed.

Lemma group_loop_prefix (pts : list Vec3) (g1 gs : list (list Z))
      (f1 fs : list (list Q)) (i : nat) (acc : Selection) (s : Scene) :
  frames_ready (length pts) g1 f1 = true ->
  exists rs,
    group_loop rt (Py.range (length pts)) pts i (g1 ++ gs) (f1 ++ fs)
               acc s =
    group_loop rt (Py.range (length pts)) pts (i + length g1) gs fs
               (advance acc i g1 rs) s /\
    Forall2 (synthesized rt pts) (combine g1 f1) rs.
Proof.
  revert f1 i acc.
  induction g1 as [| g g1 IH]; intros f1 i acc Hr.
  - destruct f1; [| discriminate]. exists []. split; [| constructor].
    simpl. now rewrite advance_nil, Nat.add_0_r.
  - destruct f1 as [| f f1]; [discriminate |].
    simpl in Hr. apply andb_true_iff in Hr. destruct Hr as [Hstep Hrest].
    destruct (group_loop_step pts g (g1 ++ gs) f (f1 ++ fs) i acc s Hstep)
      as [r [Hone Hsyn]].
    destruct (IH f1 (S i)
                 {| rigids := rigids acc ++ [r];
                    selectedIndices := selectedIndices acc ++ g;
                    indicesMap := indicesMap acc ++ repeat i (length g) |}
                 Hrest) as [rs [Hloop Hall]].
    exists (r :: rs). split; [| now constructor].
    rewrite <- !app_comm_cons, Hone, Hloop.
    replace (i + length (g :: g1))%nat with (S i + length g1)%nat
      by (simpl; lia).
    f_equal. unfold advance. simpl. now rewrite <- !app_assoc.
Qed.

Lemma group_loop_rejected (pts : list Vec3) (g : list Z)
      (gs : list (list Z)) (f : list Q) (fs : list (list Q)) (i : nat)
      (acc : Selection) (s : Scene) :
  accepted f = false ->
  group_loop rt (Py.range (length pts)) pts i (g :: gs) (f :: fs) acc s =
  (fst (emit (msg_error frame_size_text) s), Raise NotImplementedError).
Proof.
  intros Ha. simpl. unfold bind at 1, lift at 1. rewrite mfilter_range.
  unfold bind at 1. now rewrite rigid_of_frame_rejected.
Qed.

Lemma group_loop_some_rejected (a : list Z) (pts : list Vec3)
      (gs : list (list Z)) (fs : list (list Q)) (f : list Q) (i : nat)
      (acc : Selection) (s : Scene) :
  length gs = length fs -> In f fs -> accepted f = false ->
  exists s' e, group_loop rt a pts i gs fs acc s = (s', Raise e).
Proof.
  revert fs i acc.
  induction gs as [| g gs IH]; intros fs i acc Hlen Hin Ha.
  - destruct fs; [contradiction | discriminate].
  - destruct fs as [| f0 fs]; [discriminate |]. simpl.
    unfold bind at 1, lift at 1.
    destruct (mfilter g a pts) as [sp | e]; [| now exists s, e].
    unfold bind at 1. destruct (accepted f0) eqn:Ha0.
    + destruct (rigid_of_frame_accepted rt f0 sp s Ha0) as [r [Hr _]].
      rewrite Hr. destruct r as [r | e]; [| now exists s, e].
      apply IH; [now injection Hlen | | assumption].
      destruct Hin as [-> | Hin]; [congruence | assumption].
    + rewrite rigid_of_frame_rejected by assumption.
      eexists. eexists. reflexivity.
Qed.

(** On a well-formed source whose groups and frames are as many, the
    loop raises no index error. *)
Lemma group_loop_no_IndexError (pts : list Vec3) (gs : list (list Z))
      (fs : list (list Q)) (i : nat) (acc : Selection) (s s' : Scene)
      (e : exn) :
  length gs = length fs ->
  group_loop rt (Py.range (length pts)) pts i gs fs acc s =
  (s', Raise e) ->
  e <> IndexError.
Proof.
  revert fs i acc.
  induction gs as [| g gs IH]; intros fs i acc Hlen H.
  - discriminate.
  - destruct fs as [| f fs]; [discriminate |]. simpl in H.
    unfold bind at 1, lift at 1 in H. rewrite mfilter_range in H.
    unfold bind at 1 in H. destruct (accepted f) eqn:Ha.
    + destruct (rigid_of_frame_accepted rt f (selected_points pts g) s Ha)
        as [r [Hr [_ Hidx]]].
      rewrite Hr in H. destruct r as [r | e'].
      * apply IH in H; [assumption | now injection Hlen].
      * injection H as _ <-. congruence.
    + rewrite rigid_of_frame_rejected in H by assumption.
      injection H as _ <-. discriminate.
Qed.

End Stops.

(** C3. The arities 3, 4, 6 and 7, and no other, are accepted: an accepted
    frame gives the barycenter or the three leading scalars followed by
    the orientation asked for, and never the error of an unknown size; a
    frame of another arity is answered by an error message and
    [NotImplementedError], which ends the whole function without a
    result. *)
Theorem frame_arity_dispatch (rt : Runtime) (frame : list Q) :
  (accepted frame = true <->
   length frame = 3%nat \/ length frame = 4%nat \/
   length frame = 6%nat \/ length frame = 7%nat) /\
  (accepted frame = true ->
   forall selectedPoints s,
   exists r,
     rigid_of_frame rt frame selectedPoints s = (s, r) /\
     r <> Raise NotImplementedError /\
     (needs_barycenter frame = false ->
      r = Ok (firstn 3 frame ++ supplied_orientation rt frame)) /\
     (forall c, needs_barycenter frame = true ->
                getBarycenter selectedPoints = Ok c ->
                r = Ok (Vec3_list c ++ supplied_orientation rt frame))) /\
  (accepted frame = false ->
   (forall selectedPoints s,
       rigid_of_frame rt frame selectedPoints s =
       (fst (emit (msg_error frame_size_text) s),
        Raise NotImplementedError)) /\
   (forall g1 g g2 f1 f2 frames name frameOrientation s,
       let groupIndices := g1 ++ g :: g2 in
       let src := sourceObject s in
       well_formed src ->
       resolve_frames groupIndices frames frameOrientation =
       f1 ++ frame :: f2 ->
       frames_ready (length (container_position src)) g1 f1 = true ->
       length g2 = length f2 ->
       exists s',
         Rigidify rt groupIndices frames name frameOrientation s =
         (s', Raise NotImplementedError) /\
         messages s' =
         messages (warned frameOrientation s) ++
         [msg_error frame_size_text]) /\
   (forall groupIndices frames name frameOrientation s,
       In frame (resolve_frames groupIndices frames frameOrientation) ->
       exists s' e,
         Rigidify rt groupIndices frames name frameOrientation s =
         (s', Raise e))).
Proof.
  split; [| split].
  - unfold accepted. rewrite !orb_true_iff, !Nat.eqb_eq. tauto.
  - intros Ha sp s.
    destruct (rigid_of_frame_accepted rt frame sp s Ha) as [r [Hr [Hn _]]].
    exists r. split; [assumption |]. split; [assumption |]. split.
    + intros Hb. rewrite (rigid_of_frame_pose rt frame sp s Ha Hb) in Hr.
      congruence.
    + intros c Hb Hc.
      rewrite (rigid_of_frame_offset rt frame sp c s Hb Hc) in Hr.
      congruence.
  - intros Ha. split; [| split].
    + intros sp s. now apply rigid_of_frame_rejected.
    + intros g1 g g2 f1 f2 frames name fo s groupIndices src
             [Hpoints Hdofs] Hfs Hready Hlen.
      rewrite Rigidify_unfold. cbv zeta. fold src groupIndices.
      rewrite Hfs.
      assert (Hlens : length groupIndices = length (f1 ++ frame :: f2)).
      { unfold groupIndices. rewrite !length_app. simpl.
        rewrite (frames_ready_length _ _ _ Hready). lia. }
      rewrite Hlens, Nat.eqb_refl. simpl negb. cbv iota.
      rewrite Hpoints, <- Hdofs. rewrite <- Hdofs in Hready.
      unfold groupIndices.
      destruct (group_loop_prefix rt (dofs_position src) g1 (g :: g2) f1
                  (frame :: f2) 0 no_selection
                  (fst (addChild (child_name name src) (warned fo s)))
                  Hready) as [rs [Hloop _]].
      rewrite Hloop, group_loop_rejected by assumption.
      eexists. split; [reflexivity |]. reflexivity.
    + intros groupIndices frames name fo s Hin.
      rewrite Rigidify_unfold. cbv zeta.
      destruct (Nat.eqb_spec (length groupIndices)
                  (length (resolve_frames groupIndices frames fo)))
        as [Hlen | Hlen]; simpl negb; cbv iota.
      * destruct (group_loop_some_rejected rt
                    (container_points (sourceObject s))
                    (dofs_position (sourceObject s)) groupIndices
                    (resolve_frames groupIndices frames fo) frame 0
                    no_selection
                    (fst (addChild (child_name name (sourceObject s))
                                   (warned fo s))) Hlen Hin Ha)
          as [s' [e He]].
        rewrite He. now exists s', e.
      * eexists. eexists. reflexivity.
Qed.

(** The example of the specification: a frame of five scalars. *)
Lemma frame_arity_dispatch_witness :
  exists s',
    Rigidify ordered_runtime [[0%Z]] (Some [[1; 2; 3; 4; 5]]) None None
             (sample_scene 2) = (s', Raise NotImplementedError) /\
    messages s' = [msg_error frame_size_text].
Proof.
  destruct (frame_arity_dispatch ordered_runtime [1; 2; 3; 4; 5])
    as [_ [_ Hbad]].
  destruct (Hbad eq_refl) as [_ [Hwhole _]].
  apply (Hwhole [] [0%Z] [] [] [] (Some [[1; 2; 3; 4; 5]]) None None
                (sample_scene 2)).
  - split; reflexivity.
  - reflexivity.
  - reflexivity.
  - reflexivity.
Defined.

(** ** The frames of a run *)

Lemma Forall2_combine_snd {A B C : Type} (P : A * B -> C -> Prop)
      (Q : B -> C -> Prop) (la : list A) (lb : list B) (lc : list C) :
  length la = length lb ->
  (forall a b c, P (a, b) c -> Q b c) ->
  Forall2 P (combine la lb) lc -> Forall2 Q lb lc.
Proof.
  intros Hlen Himp. revert lb lc Hlen.
  induction la as [| a la IH]; intros [| b lb] lc Hlen H;
    try discriminate; simpl in H.
  - inversion H. constructor.
  - inversion H as [| ? c ? lc' Hp Hrest]; subst. constructor.
    + eapply Himp; eassumption.
    + apply IH; [now injection Hlen | assumption].
Qed.

Lemma synthesized_parts (rt : Runtime) (pts : list Vec3) (g : list Z)
      (f r : list Q) :
  synthesized rt pts (g, f) r ->
  skipn 3 r = supplied_orientation rt f /\
  (needs_barycenter f = true ->
   exists c, getBarycenter (selected_points pts g) = Ok c /\
             firstn 3 r = Vec3_list c) /\
  (needs_barycenter f = false -> firstn 3 r = firstn 3 f).
Proof.
  intros [position [Hr [Hlen [Hb Hp]]]]. simpl in Hr, Hb, Hp. subst r.
  assert (Hskip : skipn 3 (position ++ supplied_orientation rt f) =
                  supplied_orientation rt f).
  { rewrite skipn_app, Hlen, Nat.sub_diag, skipn_all2 by lia.
    reflexivity. }
  assert (Hfirst : firstn 3 (position ++ supplied_orientation rt f) =
                   position).
  { rewrite firstn_app, Hlen, Nat.sub_diag, firstn_all2 by lia.
    simpl. apply app_nil_r. }
  split; [exact Hskip |]. split.
  - intros Hn. destruct (Hb Hn) as [c [Hc ->]]. exists c.
    split; [assumption |]. exact Hfirst.
  - intros Hn. rewrite Hfirst. now apply Hp.
Qed.

Lemma supplied_orientation_cases (rt : Runtime) (f : list Q) :
  (length f = 3%nat -> supplied_orientation rt f = createFromEuler rt f) /\
  (length f = 4%nat -> supplied_orientation rt f = f) /\
  (length f = 6%nat ->
   supplied_orientation rt f = createFromEuler rt (skipn 3 f)) /\
  (length f = 7%nat -> supplied_orientation rt f = skipn 3 f).
Proof.
  repeat split; intros Hlen;
    destruct f as [| q0 [| q1 [| q2 [| q3 [| q4 [| q5 [| q6 [| q7 f]]]]]]]];
    try discriminate; reflexivity.
Qed.

Lemma within_Qeq (tolerance a b : Q) :
  0 <= tolerance -> a == b -> within tolerance a b.
Proof.
  intros Htol Hab. unfold within.
  assert (H0 : a - b == 0) by (rewrite Hab; ring).
  rewrite H0. exact Htol.
Qed.




(** C5. A frame of three or four scalars gets for position the arithmetic
    mean of the points its group selects, coordinate by coordinate, hence
    within the tolerance 1e-9. *)
Theorem barycenter_position
        (rt : Runtime) (groupIndices : list (list Z))
        (frames : option (list (list Q))) (name : option string)
        (frameOrientation : option (list (list Q))) (s : Scene) :
  let src := sourceObject s in
  let n := length (container_position src) in
  let fs := resolve_frames groupIndices frames frameOrientation in
  well_formed src ->
  components_present src ->
  frames_ready n groupIndices fs = true ->
  (forall i, In i (concat groupIndices) -> (0 <= i < Z.of_nat n)%Z) ->
  exists s' ero rs,
    Rigidify rt groupIndices frames name frameOrientation s = (s', Ok ero) /\
    RigidParts ero = Some rs /\
    Forall2 (fun gf r =>
               needs_barycenter (snd gf) = true ->
               let selected := selected_points (dofs_position src) (fst gf) in
               exists x y z,
                 firstn 3 r = [x; y; z] /\
                 x == mean (map vx selected) /\
                 y == mean (map vy selected) /\
                 z == mean (map vz selected) /\
                 within (1 # 1000000000) x (mean (map vx selected)) /\
                 within (1 # 1000000000) y (mean (map vy selected)) /\
                 within (1 # 1000000000) z (mean (map vz selected)))
            (combine groupIndices fs) rs.
Proof.
  intros src n fs Hwf Hcomp Hready Hrange.
  destruct (Rigidify_in_range rt groupIndices frames name frameOrientation s
              Hwf Hcomp Hready Hrange)
    as [rs [free [rp [Hsyn [_ [_ Hrun]]]]]].
  cbv zeta in Hrun. fold src n fs in Hrun, Hsyn.
  eexists. eexists. exists rs. split; [exact Hrun |].
  split; [reflexivity |].
  eapply Forall2_impl; [| exact Hsyn].
  intros [g f] r Hs Hn. simpl in Hn. simpl fst.
  apply synthesized_parts in Hs. destruct Hs as [_ [Hb _]].
  destruct (Hb Hn) as [c [Hc Hfirst]].
  destruct (getBarycenter_mean _ c Hc) as [Hx [Hy Hz]].
  exists (vx c), (vy c), (vz c). split; [exact Hfirst |].
  repeat split; try assumption; apply within_Qeq; try assumption;
    discriminate.
Qed.

(** The scenario of the specification: the frame of the group [1, 3] sits
    at the mean of the points 1 and 3. *)
Lemma barycenter_position_witness :
  exists s' ero r,
    Rigidify ordered_runtime [[1; 3]%Z] None None None (sample_scene 5) =
    (s', Ok ero) /\
    RigidParts ero = Some [r] /\
    Forall2 Qeq (firstn 3 r) [2; 4; 0].
Proof.
  destruct (barycenter_position
              ordered_runtime [[1; 3]%Z] None None None (sample_scene 5))
    as [s' [ero [rs [Hrun [Hrs Hall]]]]].
  - split; reflexivity.
  - repeat split.
  - reflexivity.
  - sample_range.
  - simpl in Hall.
    inversion Hall as [| gf r gfs rs' Hr Hnil]; subst.
    inversion Hnil; subst.
    destruct (Hr eq_refl) as [x [y [z [Hfirst [Hx [Hy [Hz _]]]]]]].
    exists s', ero, r. split; [exact Hrun |]. split; [exact Hrs |].
    simpl firstn. rewrite Hfirst.
    repeat constructor.
    + rewrite Hx. vm_compute. reflexivity.
    + rewrite Hy. vm_compute. reflexivity.
    + rewrite Hz. vm_compute. reflexivity.
Defined.

Lemma indexPairs_of_coupled (msgs : list message) (t : list Node)
      (src : SourceObject) (ip : list Z) :
  indexPairs_of {| messages := msgs;
                   targetObject := t;
                   sourceObject := coupled src ip |} = ip.
Proof. unfold indexPairs_of, coupled. simpl. apply last_last. Qed.

(** C6, as the code has it. The free indices are the indices of the range
    that no group holds, each once, in the order in which the set of
    Python lists them; the index at place [k] of that list gets the free
    local index [k] and its position sits at place [k] of the free
    container. *)
Theorem free_indices_are_the_unselected_ones
        (rt : Runtime) (groupIndices : list (list Z))
        (frames : option (list (list Q))) (name : option string)
        (frameOrientation : option (list (list Q))) (s : Scene) :
  let src := sourceObject s in
  let n := length (container_position src) in
  let fs := resolve_frames groupIndices frames frameOrientation in
  let sel := concat groupIndices in
  let other := list_set_difference rt (Py.range n) sel in
  well_formed src ->
  components_present src ->
  frames_ready n groupIndices fs = true ->
  (forall i, In i sel -> (0 <= i < Z.of_nat n)%Z) ->
  exists s' ero free,
    Rigidify rt groupIndices frames name frameOrientation s = (s', Ok ero) /\
    NoDup other /\
    (forall i, In i other <-> (0 <= i < Z.of_nat n)%Z /\ ~ In i sel) /\
    DeformableParts ero = Some free /\
    length free = length other /\
    forall k i,
      nth_error other k = Some i ->
      pair_at (indexPairs_of s') (Z.to_nat i) = [0%Z; Z.of_nat k] /\
      nth_error free k = nth_error (container_position src) (Z.to_nat i).
Proof.
  intros src n fs sel other Hwf Hcomp Hready Hrange.
  destruct (Rigidify_in_range rt groupIndices frames name frameOrientation s
              Hwf Hcomp Hready Hrange)
    as [rs [free [rp [_ [Hfree [_ Hrun]]]]]].
  cbv zeta in Hrun. fold src n fs sel other in Hrun, Hfree.
  eexists. eexists. exists free. split; [exact Hrun |].
  rewrite indexPairs_of_coupled.
  assert (Hin : forall i, In i other <->
                          (0 <= i < Z.of_nat n)%Z /\ ~ In i sel).
  { intros i. unfold other. rewrite list_set_difference_In, range_In.
    reflexivity. }
  split; [apply list_set_difference_NoDup |]. split; [exact Hin |].
  split; [reflexivity |].
  split; [eapply getitems_length; eassumption |].
  intros k i Hk.
  assert (Hi : In i other) by (eapply nth_error_In; eassumption).
  apply Hin in Hi. destruct Hi as [Hi Hns]. split.
  - rewrite (pair_at_flat_map (index_pair other sel) (Py.range n)
               (Z.to_nat i) i (index_pair_length other sel)).
    + apply index_pair_other; try assumption.
      apply list_set_difference_NoDup.
    + rewrite range_nth by lia. f_equal. lia.
  - destruct (getitems_nth _ _ _ Hfree k i Hk) as [p [Hp Hg]].
    rewrite Hp. symmetry. apply getitem_Ok_nonneg; [lia | assumption].
Qed.

Lemma free_indices_are_the_unselected_ones_witness :
  exists s' ero,
    Rigidify ordered_runtime [[1; 3]%Z] None None None (sample_scene 5) =
    (s', Ok ero) /\
    pair_at (indexPairs_of s') 4 = [0; 2]%Z.
Proof.
  destruct (free_indices_are_the_unselected_ones
              ordered_runtime [[1; 3]%Z] None None None (sample_scene 5))
    as [s' [ero [free [Hrun [_ [_ [_ [_ Hpair]]]]]]]].
  - split; reflexivity.
  - repeat split.
  - reflexivity.
  - sample_range.
  - exists s', ero. split; [exact Hrun |].
    exact (proj1 (Hpair 2%nat 4%Z eq_refl)).
Defined.

(** C6 fails as stated: with a set that lists its elements by hash slot,
    ten points and the group [0, 2, 3, 4, 5, 6, 7, 9] leave the free
    indices in the order 8, 1, so that the smallest free index gets the
    local index 1. *)
Lemma free_indices_are_not_ascending :
  exists s' ero,
    Rigidify slot_runtime [[0; 2; 3; 4; 5; 6; 7; 9]%Z]
             (Some [[0; 0; 0; 0; 0; 0; 1]]) None None (sample_scene 10) =
    (s', Ok ero) /\
    list_set_difference slot_runtime (Py.range 10)
                        [0; 2; 3; 4; 5; 6; 7; 9]%Z = [8; 1]%Z /\
    DeformableParts ero = Some [sample_point 8; sample_point 1] /\
    pair_at (indexPairs_of s') 1 = [0; 1]%Z /\
    pair_at (indexPairs_of s') 8 = [0; 0]%Z.
Proof.
  eexists. eexists.
  split; [vm_compute; reflexivity |].
  repeat split.
Qed.

(** ** Indices out of the range *)

Section OutOfRange.

Variable rt : Runtime.

Lemma Rigidify_IndexError_free (groupIndices : list (list Z))
      (frames : option (list (list Q))) (name : option string)
      (frameOrientation : option (list (list Q))) (s s' : Scene) (e : exn) :
  let src := sourceObject s in
  let n := length (container_position src) in
  well_formed src ->
  (forall i, In i (concat groupIndices) -> (0 <= i < Z.of_nat n)%Z) ->
  Rigidify rt groupIndices frames name frameOrientation s = (s', Raise e) ->
  e <> IndexError.
Proof.
  intros src n [Hpoints Hdofs] Hrange.
  rewrite Rigidify_unfold. cbv zeta. fold src.
  set (fs := resolve_frames groupIndices frames frameOrientation).
  destruct (Nat.eqb_spec (length groupIndices) (length fs)) as [Hlen | Hlen];
    simpl negb; cbv iota; [| intros H; injection H as _ <-; discriminate].
  rewrite Hpoints, <- Hdofs.
  set (s1 := fst (addChild (child_name name src)
                           (warned frameOrientation s))).
  destruct (group_loop rt (Py.range (length (dofs_position src)))
                       (dofs_position src) 0 groupIndices fs no_selection s1)
    as [s2 [sel | e']] eqn:Hloop.
  - apply group_loop_Ok in Hloop.
    destruct Hloop as [-> [_ [Hsel _]]]. simpl in Hsel.
    rewrite Hdofs. fold n.
    set (other := list_set_difference rt (Py.range n) (selectedIndices sel)).
    assert (Hin_other : forall x, In x other <->
                          In x (Py.range n) /\ ~ In x (selectedIndices sel))
      by (intros x; apply list_set_difference_In).
    destruct (Kd_flatten (Py.range n) other (selectedIndices sel)
                         (range_NoDup n)) as [extra [_ [_ Hflat]]].
    { intros x Hx.
      destruct (in_dec Z.eq_dec x (selectedIndices sel)) as [Hs | Hs];
        [now left | right]. apply Hin_other. now split. }
    destruct (getitems_valid (container_position src) other) as [free Hfree].
    { intros i Hi. apply Hin_other in Hi. destruct Hi as [Hi _].
      apply range_In in Hi. fold n. lia. }
    destruct (getitems_valid (container_position src) (selectedIndices sel))
      as [rp Hrp].
    { intros i Hi. rewrite Hsel in Hi. apply Hrange in Hi. fold n. lia. }
    assert (Ht : targetObject s1 =
                 targetObject s ++ [new_child (child_name name src)]).
    { unfold s1. simpl.
      now destruct (warned_scene frameOrientation s) as [-> _]. }
    destruct (solver (sourceObject s1)
              && integration (sourceObject s1)
              && LinearSolverConstraintCorrection (sourceObject s1))%bool
      eqn:Hc.
    + apply andb_true_iff in Hc. destruct Hc as [Hc Hl].
      apply andb_true_iff in Hc. destruct Hc as [Hs Hi].
      rewrite (assemble_Ok rt (container_position src) (Py.range n) sel s1
                 _ _ _ _ _ Ht Hflat Hfree Hrp (conj Hs (conj Hi Hl))).
      discriminate.
    + destruct (assemble_missing_component rt (container_position src)
                  (Py.range n) sel s1 _ _ _ _ _ Ht Hflat Hfree Hrp)
        as [s3 [Hrun _]].
      { intros [Hs [Hi Hl]]. rewrite Hs, Hi, Hl in Hc. discriminate. }
      rewrite Hrun. intros H. injection H as _ <-. discriminate.
  - intros H. injection H as _ <-.
    eapply group_loop_no_IndexError; eassumption.
Qed.

Lemma Rigidify_IndexError (groupIndices : list (list Z))
      (frames : option (list (list Q))) (name : option string)
      (frameOrientation : option (list (list Q))) (s : Scene) (i : Z) :
  let src := sourceObject s in
  let n := length (container_position src) in
  let fs := resolve_frames groupIndices frames frameOrientation in
  well_formed src ->
  frames_ready n groupIndices fs = true ->
  In i (concat groupIndices) ->
  (i < - Z.of_nat n \/ Z.of_nat n <= i)%Z ->
  exists s',
    Rigidify rt groupIndices frames name frameOrientation s =
    (s', Raise IndexError).
Proof.
  intros src n fs [Hpoints Hdofs] Hready Hin Hout.
  rewrite Rigidify_unfold. cbv zeta. fold src fs.
  rewrite (frames_ready_length _ _ _ Hready), Nat.eqb_refl. simpl negb.
  cbv iota. rewrite Hpoints. fold n.
  pose proof (group_loop_ready rt (dofs_position src) groupIndices fs 0
                no_selection
                (fst (addChild (child_name name src)
                               (warned frameOrientation s)))) as Hloop.
  rewrite Hdofs in Hloop. fold n in Hloop.
  destruct (Hloop Hready) as [rs [Hrun _]]. clear Hloop.
  rewrite Hrun. unfold advance, no_selection. simpl app.
  set (sel := concat groupIndices) in *.
  set (other := list_set_difference rt (Py.range n) sel).
  assert (Hin_other : forall x, In x other <->
                                In x (Py.range n) /\ ~ In x sel)
    by (intros x; apply list_set_difference_In).
  destruct (Kd_flatten (Py.range n) other sel (range_NoDup n))
    as [extra [_ [_ Hflat]]].
  { intros x Hx. destruct (in_dec Z.eq_dec x sel) as [Hs | Hs];
      [now left | right]. apply Hin_other. now split. }
  destruct (getitems_valid (container_position src) other) as [free Hfree].
  { intros j Hj. apply Hin_other in Hj. destruct Hj as [Hj _].
    apply range_In in Hj. fold n. lia. }
  pose proof (getitems_invalid (container_position src) sel i Hin Hout)
    as Hrp.
  destruct (assemble_rigidified_IndexError rt (container_position src)
              (Py.range n)
              {| rigids := rs; selectedIndices := sel;
                 indicesMap := owners 0 groupIndices |}
              (fst (addChild (child_name name src)
                             (warned frameOrientation s)))
              _ _ Hflat Hfree Hrp) as [s' [Hs' _]].
  now exists s'.
Qed.

End OutOfRange.

(** C7, as the code has it. No range check is made on the groups: an index
    is read the way Python reads a list. With every index in
    [0, totalCount) no index error is raised; an index at or beyond
    totalCount, or below -totalCount, ends the function with [IndexError]
    when the rigidified positions are read, once the frames are
    synthesized; a negative index down to -totalCount is accepted and
    the function returns. *)
Theorem group_indices_are_read_as_Python_reads_a_list
        (rt : Runtime) (groupIndices : list (list Z))
        (frames : option (list (list Q))) (name : option string)
        (frameOrientation : option (list (list Q))) (s : Scene) :
  let src := sourceObject s in
  let n := length (container_position src) in
  let fs := resolve_frames groupIndices frames frameOrientation in
  let sel := concat groupIndices in
  well_formed src ->
  ((forall i, In i sel -> (0 <= i < Z.of_nat n)%Z) ->
   forall s' e,
     Rigidify rt groupIndices frames name frameOrientation s =
     (s', Raise e) -> e <> IndexError) /\
  (frames_ready n groupIndices fs = true ->
   (exists i, In i sel /\ (i < - Z.of_nat n \/ Z.of_nat n <= i)%Z) ->
   exists s',
     Rigidify rt groupIndices frames name frameOrientation s =
     (s', Raise IndexError)) /\
  (frames_ready n groupIndices fs = true ->
   components_present src ->
   (forall i, In i sel -> (- Z.of_nat n <= i < Z.of_nat n)%Z) ->
   exists s' ero rigidified,
     Rigidify rt groupIndices frames name frameOrientation s =
     (s', Ok ero) /\
     RigidifiedParticules ero = Some rigidified /\
     Py.getitems (container_position src) sel = Ok rigidified).
Proof.
  intros src n fs sel Hwf. split; [| split].
  - intros Hrange s' e Hrun.
    exact (Rigidify_IndexError_free rt groupIndices frames name
             frameOrientation s s' e Hwf Hrange Hrun).
  - intros Hready [i [Hin Hout]].
    exact (Rigidify_IndexError rt groupIndices frames name frameOrientation
             s i Hwf Hready Hin Hout).
  - intros Hready Hcomp Hvalid.
    destruct (Rigidify_succeeds rt groupIndices frames name frameOrientation
                s Hwf Hcomp Hready Hvalid)
      as [rs [free [rp [extra [_ [_ [_ [_ [Hrp Hrun]]]]]]]]].
    cbv zeta in Hrun. eexists. eexists. exists rp.
    split; [exact Hrun |]. split; [reflexivity | exact Hrp].
Qed.

(** Three points: the index 3 is beyond the cloud. *)
Lemma group_indices_are_read_as_Python_reads_a_list_witness :
  exists s',
    Rigidify ordered_runtime [[3%Z]] (Some [[0; 0; 0; 0; 0; 0; 1]]) None None
             (sample_scene 3) = (s', Raise IndexError).
Proof.
  destruct (group_indices_are_read_as_Python_reads_a_list
              ordered_runtime [[3%Z]] (Some [[0; 0; 0; 0; 0; 0; 1]]) None None
              (sample_scene 3)) as [_ [Hbeyond _]].
  - split; reflexivity.
  - apply Hbeyond.
    + reflexivity.
    + exists 3%Z. split; [now left | right; cbn; lia].
Defined.

(** C7 fails as stated: the index -1 is outside [0, 3) and the function
    returns, the last point of the cloud being rigidified. *)
Lemma negative_index_is_accepted :
  exists s' ero,
    Rigidify ordered_runtime [[(-1)%Z]] (Some [[0; 0; 0; 0; 0; 0; 1]])
             None None (sample_scene 3) = (s', Ok ero) /\
    RigidifiedParticules ero = Some [sample_point 2] /\
    indexPairs_of s' = [0; 0; 0; 1; 0; 2; 1; 0]%Z.
Proof.
  eexists. eexists.
  split; [vm_compute; reflexivity |].
  split; reflexivity.
Qed.

(** C8, as the code has it. Groups that overlap are not rejected: the
    function returns as it does on disjoint groups; the rigidified
    container lists the groups one after the other, an index held by two
    groups once for each, with the ordinal of the group that holds it, and
    the index pair of such an index designates its last occurrence. *)
Theorem overlapping_groups_are_rigidified_twice
        (rt : Runtime) (groupIndices : list (list Z))
        (frames : option (list (list Q))) (name : option string)
        (frameOrientation : option (list (list Q))) (s : Scene) :
  let src := sourceObject s in
  let n := length (container_position src) in
  let fs := resolve_frames groupIndices frames frameOrientation in
  let sel := concat groupIndices in
  well_formed src ->
  components_present src ->
  frames_ready n groupIndices fs = true ->
  (forall i, In i sel -> (0 <= i < Z.of_nat n)%Z) ->
  exists s' ero rigidified,
    Rigidify rt groupIndices frames name frameOrientation s = (s', Ok ero) /\
    RigidifiedParticules ero = Some rigidified /\
    length rigidified = length sel /\
    rigidIndexPerPoint ero = Some (owners 0 groupIndices) /\
    (forall k i, nth_error sel k = Some i ->
                 nth_error rigidified k =
                 nth_error (container_position src) (Z.to_nat i)) /\
    (forall i, In i sel ->
               pair_at (indexPairs_of s') (Z.to_nat i) =
               [1%Z; Z.of_nat (local_index i sel)] /\
               nth_error sel (local_index i sel) = Some i /\
               forall k, nth_error sel k = Some i ->
                         (k <= local_index i sel)%nat).
Proof.
  intros src n fs sel Hwf Hcomp Hready Hrange.
  destruct (Rigidify_in_range rt groupIndices frames name frameOrientation s
              Hwf Hcomp Hready Hrange)
    as [rs [free [rp [_ [_ [Hrp Hrun]]]]]].
  cbv zeta in Hrun. fold src n fs sel in Hrun, Hrp.
  eexists. eexists. exists rp. split; [exact Hrun |].
  rewrite indexPairs_of_coupled.
  split; [reflexivity |].
  split; [eapply getitems_length; eassumption |].
  split; [reflexivity |]. split.
  - intros k i Hk.
    assert (Hi : In i sel) by (eapply nth_error_In; eassumption).
    apply Hrange in Hi.
    destruct (getitems_nth _ _ _ Hrp k i Hk) as [p [Hp Hg]].
    rewrite Hp. symmetry. apply getitem_Ok_nonneg; [lia | assumption].
  - intros i Hi. pose proof (Hrange i Hi) as Hr. split; [| split].
    + rewrite (pair_at_flat_map _ (Py.range n) (Z.to_nat i) i
                 (index_pair_length _ sel)).
      * unfold index_pair. apply contains_In in Hi. now rewrite Hi.
      * rewrite range_nth by lia. f_equal. lia.
    + now apply local_index_nth.
    + intros k. apply local_index_last.
Qed.

Lemma overlapping_groups_are_rigidified_twice_witness :
  exists s' ero,
    Rigidify ordered_runtime [[0; 1]; [1]]%Z
             (Some [[0; 0; 0; 0; 0; 0; 1]; [0; 0; 0; 0; 0; 0; 1]])
             None None (sample_scene 3) = (s', Ok ero) /\
    rigidIndexPerPoint ero = Some [0; 0; 1]%nat /\
    pair_at (indexPairs_of s') 1 = [1; 2]%Z.
Proof.
  destruct (overlapping_groups_are_rigidified_twice
              ordered_runtime [[0; 1]; [1]]%Z
              (Some [[0; 0; 0; 0; 0; 0; 1]; [0; 0; 0; 0; 0; 0; 1]])
              None None (sample_scene 3))
    as [s' [ero [rigidified [Hrun [_ [_ [Hown [_ Hpair]]]]]]]].
  - split; reflexivity.
  - repeat split.
  - reflexivity.
  - sample_range.
  - exists s', ero. split; [exact Hrun |]. split; [exact Hown |].
    exact (proj1 (Hpair 1%Z (or_intror (or_introl eq_refl)))).
Defined.

(** C8 fails as stated: the index 1 is in two groups and the function
    returns, the point 1 being rigidified once for each. *)
Lemma overlapping_groups_are_accepted :
  exists s' ero,
    Rigidify ordered_runtime [[0; 1]; [1]]%Z
             (Some [[0; 0; 0; 0; 0; 0; 1]; [0; 0; 0; 0; 0; 0; 1]])
             None None (sample_scene 3) = (s', Ok ero) /\
    RigidifiedParticules ero =
    Some [sample_point 0; sample_point 1; sample_point 1] /\
    rigidIndexPerPoint ero = Some [0; 0; 1]%nat.
Proof.
  eexists. eexists.
  split; [vm_compute; reflexivity |].
  split; reflexivity.
Qed.

(** ** Runs that return *)

Section Returns.

Variable rt : Runtime.

Lemma Rigidify_Ok_inv (groupIndices : list (list Z))
      (frames : option (list (list Q))) (name : option string)
      (frameOrientation : option (list (list Q))) (s s1 : Scene)
      (ero : Node) :
  let src := sourceObject s in
  let fs := resolve_frames groupIndices frames frameOrientation in
  Rigidify rt groupIndices frames name frameOrientation s = (s1, Ok ero) ->
  length groupIndices = length fs /\
  components_present src /\
  exists sel ip free rp,
    (forall s0,
        group_loop rt (container_points src) (dofs_position src) 0
                   groupIndices fs no_selection s0 = (s0, Ok sel)) /\
    Py.flatten
      (Py.values
         (make_Kd (container_points src)
                  (list_set_difference rt (container_points src)
                                       (selectedIndices sel))
                  (selectedIndices sel))) = Ok ip /\
    Py.getitems (container_position src)
                (list_set_difference rt (container_points src)
                                     (selectedIndices sel)) = Ok free /\
    Py.getitems (container_position src) (selectedIndices sel) = Ok rp /\
    ero = built (new_child (child_name name src)) free (rigids sel) rp
                (indicesMap sel) /\
    s1 = {| messages := messages (warned frameOrientation s);
            targetObject := targetObject s ++ [ero];
            sourceObject := coupled src ip |}.
Proof.
  intros src fs. rewrite Rigidify_unfold. cbv zeta. fold src fs.
  destruct (Nat.eqb_spec (length groupIndices) (length fs)) as [Hlen | Hlen];
    simpl negb; cbv iota; [| discriminate].
  set (s0 := fst (addChild (child_name name src)
                           (warned frameOrientation s))).
  destruct (group_loop rt (container_points src) (dofs_position src) 0
                       groupIndices fs no_selection s0)
    as [s2 [sel | e]] eqn:Hloop; [| discriminate].
  apply group_loop_Ok in Hloop. destruct Hloop as [-> [Hany _]].
  intros Hrun.
  assert (Hsrc : sourceObject s0 = src).
  { unfold s0. simpl.
    now destruct (warned_scene frameOrientation s) as [_ ->]. }
  assert (Ht : targetObject s0 =
               targetObject s ++ [new_child (child_name name src)]).
  { unfold s0. simpl.
    now destruct (warned_scene frameOrientation s) as [-> _]. }
  destruct (assemble_Ok_inv rt _ _ _ _ _ _ Hrun)
    as [Hcomp [ip [free [rp [Hip [Hfree Hrp]]]]]].
  rewrite (assemble_Ok rt _ _ _ _ _ _ _ _ _ Ht Hip Hfree Hrp Hcomp) in Hrun.
  rewrite Hsrc in Hcomp, Hrun.
  split; [assumption |]. split; [assumption |].
  exists sel, ip, free, rp.
  injection Hrun as Hs1 Hero.
  repeat (split; [assumption |]). split; [now symmetry |].
  rewrite <- Hs1, Hero. reflexivity.
Qed.

End Returns.





(** * Further properties of Rigidify *)

(** ** Every run, whatever its end *)

Lemma update_last_length {A : Type} (f : A -> A) (l : list A) :
  length (update_last f l) = length l.
Proof.
  induction l as [| a l IH]; [reflexivity |].
  simpl. destruct l; [reflexivity |]. simpl in *. now rewrite IH.
Qed.

Lemma flatten_Some (vals : list (option (list Z))) :
  (forall v, In v vals -> v <> None) ->
  exists ip, Py.flatten vals = Ok ip.
Proof.
  induction vals as [| v vals IH]; intros H; [now exists [] |].
  destruct v as [kv |]; [| exfalso; apply (H None); [now left | reflexivity]].
  destruct IH as [ip Hip]; [intros v Hv; apply H; now right |].
  simpl. rewrite Hip. now exists (kv ++ ip).
Qed.

Lemma flatten_Raise (vals : list (option (list Z))) (e : exn) :
  Py.flatten vals = Raise e -> e = TypeError.
Proof.
  induction vals as [| [kv |] vals IH]; simpl; try congruence.
  destruct (Py.flatten vals); [discriminate |].
  intros H. apply IH. congruence.
Qed.

(** Whatever the indices of the container, no value of [Kd] stays at
    [None]: an index of the container is selected or other. *)
Lemma Kd_flatten_total (a o sel : list Z) :
  (forall x, In x a -> In x sel \/ In x o) ->
  exists ip, Py.flatten (Py.values (make_Kd a o sel)) = Ok ip.
Proof.
  intros Hcover. apply flatten_Some. intros v Hv.
  unfold Py.values in Hv. apply in_map_iff in Hv.
  destruct Hv as [[k v'] [Hv Hin]]. simpl in Hv. subst v'.
  assert (Hnd : NoDup (Py.keys (make_Kd a o sel))).
  { unfold make_Kd.
    destruct (keys_update (Py.comprehension (fun _ _ => None) a)
                (Py.comprehension (fun k _ => Some [0%Z; Z.of_nat k]) o)
                (keys_comprehension_NoDup _ a)) as [e1 [Hk1 [Hnd1 _]]].
    destruct (keys_update
                (Py.update (Py.comprehension (fun _ _ => None) a)
                   (Py.comprehension (fun k _ => Some [0%Z; Z.of_nat k]) o))
                (Py.comprehension (fun k _ => Some [1%Z; Z.of_nat k]) sel))
      as [e2 [Hk2 [Hnd2 _]]]; [now rewrite Hk1 |].
    now rewrite Hk2. }
  assert (Hget : Py.get k (make_Kd a o sel) = Some v).
  { clear Hcover. revert Hnd Hin.
    induction (make_Kd a o sel) as [| [k' w] d IH]; intros Hnd Hin;
      [contradiction |].
    simpl in Hnd. inversion Hnd as [| ? ? Hk' Hnd']; subst.
    simpl. destruct Hin as [Heq | Hin].
    - injection Heq as -> ->. now rewrite Z.eqb_refl.
    - destruct (Z.eqb_spec k k') as [-> | Hne].
      + exfalso. apply Hk'. change k' with (fst (k', v)).
        now apply in_map.
      + now apply IH. }
  rewrite Kd_get in Hget.
  destruct (Py.contains k sel) eqn:Es; [congruence |].
  destruct (Py.contains k o) eqn:Eo; [congruence |].
  destruct (Py.contains k a) eqn:Ea; [| discriminate].
  apply contains_In in Ea. apply contains_false in Es, Eo.
  destruct (Hcover k Ea); contradiction.
Qed.

Section EveryRun.

Variable rt : Runtime.

Lemma other_cover_general (a sel : list Z) (x : Z) :
  In x a -> In x sel \/ In x (list_set_difference rt a sel).
Proof.
  intros Hx. destruct (in_dec Z.eq_dec x sel) as [Hs | Hs];
    [now left | right].
  apply list_set_difference_In. now split.
Qed.

(** What the loop can raise, and what it writes to the messages. *)
Lemma group_loop_outcome (a : list Z) (pts : list Vec3)
      (gs : list (list Z)) (fs : list (list Q)) (i : nat) (acc : Selection)
      (s s' : Scene) (r : result Selection) :
  group_loop rt a pts i gs fs acc s = (s', r) ->
  targetObject s' = targetObject s /\
  sourceObject s' = sourceObject s /\
  messages s' =
  messages s ++ match r with
                | Raise NotImplementedError => [msg_error frame_size_text]
                | _ => []
                end /\
  forall e, r = Raise e ->
            e = NotImplementedError \/ e = IndexError \/
            e = EmptyInputError.
Proof.
  revert fs i acc.
  induction gs as [| g gs IH]; intros fs i acc H; simpl in H.
  - unfold ret in H. injection H as <- <-.
    rewrite app_nil_r. repeat split. discriminate.
  - unfold bind at 1, lift at 1 in H.
    destruct (mfilter g a pts) as [sp | e0] eqn:Hm.
    + destruct fs as [| f fs].
      * unfold raise in H. injection H as <- <-.
        rewrite app_nil_r. repeat split. intros e9 He9. injection He9 as <-.
        tauto.
      * unfold bind at 1 in H. destruct (accepted f) eqn:Ha.
        -- destruct (needs_barycenter f) eqn:Hn.
           ++ destruct (getBarycenter sp) as [c |] eqn:Hc.
              ** rewrite (rigid_of_frame_offset rt f sp c s Hn Hc) in H.
                 now apply IH in H.
              ** destruct sp; [| discriminate].
                 rewrite (rigid_of_frame_empty rt f s Hn) in H.
                 injection H as <- <-. rewrite app_nil_r. repeat split.
                 intros e9 He9. injection He9 as <-. tauto.
           ++ rewrite (rigid_of_frame_pose rt f sp s Ha Hn) in H.
              now apply IH in H.
        -- rewrite (rigid_of_frame_rejected rt f sp s Ha) in H.
           injection H as <- <-. simpl. repeat split.
           intros e9 He9. injection He9 as <-. tauto.
    + injection H as <- <-. rewrite mfilter_getitems in Hm.
      apply getitems_Raise in Hm. subst e0.
      rewrite app_nil_r. repeat split. intros e9 He9. injection He9 as <-.
      tauto.
Qed.

(** What the second half can raise and what it leaves of the scene. *)
Lemma assemble_outcome (pos : list Vec3) (a : list Z) (sel : Selection)
      (s s' : Scene) (t : list Node) (child : Node) (r : result Node) :
  targetObject s = t ++ [child] ->
  assemble rt pos a sel s = (s', r) ->
  messages s' = messages s /\
  (exists child', targetObject s' = t ++ [child'] /\
                  node_name child' = node_name child) /\
  name_value (sourceObject s') = name_value (sourceObject s) /\
  container_position (sourceObject s') =
  container_position (sourceObject s) /\
  container_points (sourceObject s') = container_points (sourceObject s) /\
  dofs_position (sourceObject s') = dofs_position (sourceObject s) /\
  (forall e, r = Raise e ->
             mappings (sourceObject s') = mappings (sourceObject s) /\
             (e = IndexError \/ e = AttributeError)).
Proof.
  intros Ht. unfold assemble, bind, lift.
  destruct (Kd_flatten_total a
              (list_set_difference rt a (selectedIndices sel))
              (selectedIndices sel)) as [ip Hip].
  { intros x Hx. now apply other_cover_general. }
  rewrite Hip.
  destruct (Py.getitems pos (list_set_difference _ _ _)) as [free | e1]
    eqn:Hfree.
  - unfold modify_ero at 1 2. scene_simpl.
    destruct (Py.getitems pos (selectedIndices sel)) as [rp | e2] eqn:Hrp.
    + unfold modify_ero, removeObject, set_source, get_ero. scene_simpl.
      destruct (solver (sourceObject s)); scene_simpl;
        [destruct (integration (sourceObject s)); scene_simpl;
         [destruct (LinearSolverConstraintCorrection (sourceObject s));
          scene_simpl |]
        |];
        rewrite ?Ht, ?update_last_snoc, ?last_snoc;
        intros H; injection H as <- <-; simpl;
        (split; [reflexivity |]);
        (split; [eexists; split; reflexivity |]);
        do 4 (split; [reflexivity |]);
        intros e9 He9; try discriminate; injection He9 as <-;
        (split; [reflexivity | now right]).
    + intros H. injection H as <- <-. simpl.
      rewrite Ht, !update_last_snoc.
      split; [reflexivity |].
      split; [eexists; split; reflexivity |].
      do 4 (split; [reflexivity |]).
      intros e9 He9. injection He9 as <-. split; [reflexivity |].
      left. eapply getitems_Raise; eassumption.
  - intros H. injection H as <- <-.
    split; [reflexivity |].
    split; [exists child; split; [assumption | reflexivity] |].
    do 4 (split; [reflexivity |]).
    intros e9 He9. injection He9 as <-. split; [reflexivity |].
    left. eapply getitems_Raise; eassumption.
Qed.

End EveryRun.


(** X2. What a call can raise: never the type error that a value of [Kd] left
    at [None] would cause at line 121, and the assertion error exactly
    when groups and frames differ in number, in which case the scene has
    only received the deprecation warning, if any. With neither [frames]
    nor [frameOrientation] the assertion cannot fail. *)
Theorem Rigidify_errors
        (rt : Runtime) (groupIndices : list (list Z))
        (frames : option (list (list Q))) (name : option string)
        (frameOrientation : option (list (list Q))) (s : Scene) :
  let run := Rigidify rt groupIndices frames name frameOrientation s in
  let fs := resolve_frames groupIndices frames frameOrientation in
  snd run <> Raise TypeError /\
  (snd run = Raise AssertionError <-> length groupIndices <> length fs) /\
  (length groupIndices <> length fs ->
   fst run = warned frameOrientation s) /\
  snd (Rigidify rt groupIndices None name None s) <> Raise AssertionError.
Proof.
  assert (Hgen : forall fr fo,
             let run := Rigidify rt groupIndices fr name fo s in
             let fs := resolve_frames groupIndices fr fo in
             snd run <> Raise TypeError /\
             (snd run = Raise AssertionError <->
              length groupIndices <> length fs) /\
             (length groupIndices <> length fs -> fst run = warned fo s)).
  { intros fr fo. cbv zeta. rewrite Rigidify_unfold. cbv zeta.
    destruct (Nat.eqb_spec (length groupIndices)
                (length (resolve_frames groupIndices fr fo)))
      as [Hlen | Hlen]; simpl negb; cbv iota.
    - set (s0 := fst (addChild (child_name name (sourceObject s))
                               (warned fo s))).
      assert (Ht0 : targetObject s0 =
                    targetObject s ++
                    [new_child (child_name name (sourceObject s))]).
      { unfold s0. simpl.
        now destruct (warned_scene fo s) as [-> _]. }
      destruct (group_loop rt _ _ 0 groupIndices _ no_selection s0)
        as [s2 [sel | e]] eqn:Hloop;
        apply group_loop_outcome in Hloop;
        destruct Hloop as [Ht2 [_ [_ He]]].
      + destruct (assemble rt (container_position (sourceObject s))
                           (container_points (sourceObject s)) sel s2)
          as [s3 r] eqn:Hrun.
        rewrite Ht0 in Ht2.
        destruct (assemble_outcome rt _ _ _ _ _ _ _ _ Ht2 Hrun)
          as [_ [_ [_ [_ [_ [_ Hm]]]]]].
        simpl. split; [| split].
        * intros Hr. destruct (Hm _ Hr) as [_ [H | H]]; discriminate.
        * split; [| contradiction].
          intros Hr. destruct (Hm _ Hr) as [_ [H | H]]; discriminate.
        * contradiction.
      + simpl. split; [| split].
        * intros Hr. injection Hr as ->.
          destruct (He _ eq_refl) as [H | [H | H]]; discriminate.
        * split; [| contradiction].
          intros Hr. injection Hr as ->.
          destruct (He _ eq_refl) as [H | [H | H]]; discriminate.
        * contradiction.
    - simpl. split; [discriminate |]. split; [tauto | reflexivity]. }
  cbv zeta.
  destruct (Hgen frames frameOrientation) as [H1 [H2 H3]].
  split; [exact H1 |]. split; [exact H2 |]. split; [exact H3 |].
  destruct (Hgen None None) as [_ [H4 _]]. cbv zeta in H4.
  intros Hr. apply H4 in Hr. apply Hr. simpl. now rewrite repeat_length.
Qed.

(** X3. The messages of a call: the deprecation warning when
    [frameOrientation] is given, then the error message exactly when the
    call ends on a frame of unknown size, and nothing else. *)
Theorem Rigidify_messages
        (rt : Runtime) (groupIndices : list (list Z))
        (frames : option (list (list Q))) (name : option string)
        (frameOrientation : option (list (list Q))) (s : Scene) :
  let run := Rigidify rt groupIndices frames name frameOrientation s in
  messages (fst run) =
  messages s ++
  match frameOrientation with
  | Some _ => [msg_warning deprecation_text]
  | None => []
  end ++
  match snd run with
  | Raise NotImplementedError => [msg_error frame_size_text]
  | _ => []
  end.
Proof.
  cbv zeta. rewrite Rigidify_unfold. cbv zeta.
  assert (Hw : messages (warned frameOrientation s) =
               messages s ++
               match frameOrientation with
               | Some _ => [msg_warning deprecation_text]
               | None => []
               end).
  { destruct frameOrientation; simpl; [reflexivity |].
    now rewrite app_nil_r. }
  destruct (negb _).
  - simpl. now rewrite app_nil_r.
  - set (s0 := fst (addChild (child_name name (sourceObject s))
                             (warned frameOrientation s))).
    assert (Hm0 : messages s0 = messages (warned frameOrientation s))
      by reflexivity.
    assert (Ht0 : targetObject s0 =
                  targetObject s ++
                  [new_child (child_name name (sourceObject s))]).
    { unfold s0. simpl.
      now destruct (warned_scene frameOrientation s) as [-> _]. }
    destruct (group_loop rt _ _ 0 groupIndices _ no_selection s0)
      as [s2 [sel | e]] eqn:Hloop;
      apply group_loop_outcome in Hloop;
      destruct Hloop as [Ht2 [_ [Hm2 _]]].
    + destruct (assemble rt (container_position (sourceObject s))
                         (container_points (sourceObject s)) sel s2)
        as [s3 r] eqn:Hrun.
      rewrite Ht0 in Ht2.
      destruct (assemble_outcome rt _ _ _ _ _ _ _ _ Ht2 Hrun)
        as [Hm3 [_ [_ [_ [_ [_ Hm]]]]]].
      simpl. rewrite Hm3, Hm2, Hm0, Hw, app_nil_r.
      assert (Hr : match r with
                   | Raise NotImplementedError => [msg_error frame_size_text]
                   | _ => []
                   end = []).
      { destruct r as [? | e]; [reflexivity |].
        destruct (Hm e eq_refl) as [_ [-> | ->]]; reflexivity. }
      now rewrite Hr, app_nil_r.
    + simpl. rewrite Hm2, Hm0, Hw. now rewrite <- app_assoc.
Qed.

(** ** The partition *)

Lemma getitems_options {A : Type} (pos : list A) (idx : list Z)
      (xs : list A) :
  Py.getitems pos idx = Ok xs ->
  map Some xs =
  map (fun i => match Py.getitem pos i with
                | Ok a => Some a
                | Raise _ => None
                end) idx.
Proof.
  revert xs. induction idx as [| i idx IH]; intros xs H; simpl in H.
  - now injection H as <-.
  - destruct (Py.getitem pos i) as [a |] eqn:Ha; [| discriminate].
    destruct (Py.getitems pos idx) as [ys |]; [| discriminate].
    injection H as <-. simpl. rewrite Ha. f_equal. now apply IH.
Qed.

Lemma Permutation_Some {A : Type} (l l' : list A) :
  Permutation (map Some l) (map Some l') -> Permutation l l'.
Proof.
  intros H.
  apply (Permutation_flat_map
           (fun o : option A => match o with
                                | Some a => [a]
                                | None => []
                                end)) in H.
  assert (Hflat : forall m : list A,
             flat_map (fun o : option A => match o with
                                           | Some a => [a]
                                           | None => []
                                           end) (map Some m) = m).
  { induction m as [| a m IH]; [reflexivity |]. simpl. now rewrite IH. }
  now rewrite !Hflat in H.
Qed.

Lemma getitems_Permutation {A : Type} (pos : list A) (idx idx' : list Z)
      (xs xs' : list A) :
  Permutation idx idx' ->
  Py.getitems pos idx = Ok xs -> Py.getitems pos idx' = Ok xs' ->
  Permutation xs xs'.
Proof.
  intros Hp Hx Hx'. apply Permutation_Some.
  rewrite (getitems_options _ _ _ Hx), (getitems_options _ _ _ Hx').
  now apply Permutation_map.
Qed.

Lemma index_pairs_length (o sel l : list Z) :
  length (flat_map (index_pair o sel) l) = (2 * length l)%nat.
Proof.
  induction l as [| x l IH]; [reflexivity |].
  simpl flat_map. rewrite length_app, index_pair_length, IH. simpl. lia.
Qed.

(** X4. On disjoint groups the free and the rigidified containers hold
    together the points of the cloud, each once, and the index pairs are
    one for each point. *)
Theorem containers_partition_the_cloud
        (rt : Runtime) (groupIndices : list (list Z))
        (frames : option (list (list Q))) (name : option string)
        (frameOrientation : option (list (list Q))) (s : Scene) :
  let src := sourceObject s in
  let n := length (container_position src) in
  let fs := resolve_frames groupIndices frames frameOrientation in
  let sel := concat groupIndices in
  well_formed src ->
  components_present src ->
  frames_ready n groupIndices fs = true ->
  (forall i, In i sel -> (0 <= i < Z.of_nat n)%Z) ->
  NoDup sel ->
  exists s' ero free rigidified,
    Rigidify rt groupIndices frames name frameOrientation s = (s', Ok ero) /\
    DeformableParts ero = Some free /\
    RigidifiedParticules ero = Some rigidified /\
    Permutation (free ++ rigidified) (container_position src) /\
    (length free + length rigidified = n)%nat /\
    length rigidified = length sel /\
    length (indexPairs_of s') = (2 * n)%nat.
Proof.
  intros src n fs sel Hwf Hcomp Hready Hrange Hnd.
  destruct (Rigidify_in_range rt groupIndices frames name frameOrientation s
              Hwf Hcomp Hready Hrange)
    as [rs [free [rp [_ [Hfree [Hrp Hrun]]]]]].
  cbv zeta in Hrun. fold src n fs sel in Hrun, Hfree, Hrp.
  set (other := list_set_difference rt (Py.range n) sel) in *.
  eexists. eexists. exists free, rp. split; [exact Hrun |].
  rewrite indexPairs_of_coupled.
  split; [reflexivity |]. split; [reflexivity |].
  assert (Hperm : Permutation (other ++ sel) (Py.range n)).
  { apply NoDup_Permutation.
    - apply NoDup_app; [apply list_set_difference_NoDup | assumption |].
      intros x Hx. apply list_set_difference_In in Hx. tauto.
    - apply range_NoDup.
    - intros x. rewrite in_app_iff. unfold other.
      rewrite list_set_difference_In. split.
      + intros [[Hx _] | Hx]; [assumption |]. now apply range_In, Hrange.
      + intros Hx. destruct (in_dec Z.eq_dec x sel); tauto. }
  assert (Hpp : Permutation (free ++ rp) (container_position src)).
  { apply (getitems_Permutation (container_position src) (other ++ sel)
             (Py.range n)); [assumption | |].
    - now apply getitems_app_Ok.
    - apply getitems_range. }
  split; [exact Hpp |]. split; [| split].
  - apply Permutation_length in Hpp. now rewrite length_app in Hpp.
  - eapply getitems_length; eassumption.
  - now rewrite index_pairs_length, range_length.
Qed.

Lemma containers_partition_the_cloud_witness :
  exists s' ero free rigidified,
    Rigidify ordered_runtime [[1; 3]%Z] None None None (sample_scene 5) =
    (s', Ok ero) /\
    Permutation (free ++ rigidified) (map sample_point [0; 1; 2; 3; 4]%Z) /\
    length (indexPairs_of s') = 10%nat.
Proof.
  destruct (containers_partition_the_cloud
              ordered_runtime [[1; 3]%Z] None None None (sample_scene 5))
    as [s' [ero [free [rigidified [Hrun [_ [_ [Hperm [_ [_ Hlen]]]]]]]]]].
  - split; reflexivity.
  - repeat split.
  - reflexivity.
  - sample_range.
  - sample_NoDup.
  - exists s', ero, free, rigidified.
    split; [exact Hrun |]. split; [exact Hperm | exact Hlen].
Defined.

(** ** Frames and owners *)

Lemma owners_length (i : nat) (gs : list (list Z)) :
  length (owners i gs) = length (concat gs).
Proof.
  revert i. induction gs as [| g gs IH]; intros i; [reflexivity |].
  simpl. now rewrite !length_app, repeat_length, IH.
Qed.

Lemma owners_nth (gs : list (list Z)) (start k j : nat) :
  nth_error (owners start gs) k = Some j ->
  (start <= j)%nat /\
  exists g i, nth_error gs (j - start) = Some g /\
              nth_error (concat gs) k = Some i /\ In i g.
Proof.
  revert start k. induction gs as [| g gs IH]; intros start k Hk.
  - destruct k; discriminate.
  - simpl in Hk. simpl concat.
    destruct (Nat.ltb_spec k (length g)) as [Hlt | Hge].
    + rewrite nth_error_app1 in Hk by now rewrite repeat_length.
      assert (Hj : j = start).
      { apply nth_error_In, repeat_spec in Hk. congruence. }
      subst j. split; [lia |]. rewrite Nat.sub_diag.
      destruct (nth_error g k) as [i |] eqn:Hi;
        [| apply nth_error_None in Hi; lia].
      exists g, i. split; [reflexivity |]. split.
      * now rewrite nth_error_app1.
      * eapply nth_error_In; eassumption.
    + rewrite nth_error_app2 in Hk by now rewrite repeat_length.
      rewrite repeat_length in Hk.
      destruct (IH (S start) (k - length g)%nat Hk)
        as [Hle [g' [i [Hg [Hi Hin]]]]].
      split; [lia |]. exists g', i. split; [| split; [| assumption]].
      * replace (j - start)%nat with (S (j - S start)) by lia. exact Hg.
      * now rewrite nth_error_app2.
Qed.

(** X5. A call that returns gives one frame to each group, in the order of
    the groups, and one owner to each rigidified point: the ordinal of
    the group the point comes from. *)
Theorem every_rigidified_point_has_its_group
        (rt : Runtime) (groupIndices : list (list Z))
        (frames : option (list (list Q))) (name : option string)
        (frameOrientation : option (list (list Q))) (s : Scene) :
  let src := sourceObject s in
  let n := length (container_position src) in
  let fs := resolve_frames groupIndices frames frameOrientation in
  let sel := concat groupIndices in
  well_formed src ->
  components_present src ->
  frames_ready n groupIndices fs = true ->
  (forall i, In i sel -> (- Z.of_nat n <= i < Z.of_nat n)%Z) ->
  exists s' ero rs rigidified owner,
    Rigidify rt groupIndices frames name frameOrientation s = (s', Ok ero) /\
    RigidParts ero = Some rs /\
    RigidifiedParticules ero = Some rigidified /\
    rigidIndexPerPoint ero = Some owner /\
    length rs = length groupIndices /\
    length owner = length rigidified /\
    forall k j,
      nth_error owner k = Some j ->
      (j < length rs)%nat /\
      exists g i p,
        nth_error groupIndices j = Some g /\ In i g /\
        nth_error rigidified k = Some p /\
        Py.getitem (container_position src) i = Ok p.
Proof.
  intros src n fs sel Hwf Hcomp Hready Hvalid.
  destruct (Rigidify_succeeds rt groupIndices frames name frameOrientation s
              Hwf Hcomp Hready Hvalid)
    as [rs [free [rp [extra [Hsyn [_ [_ [_ [Hrp Hrun]]]]]]]]].
  cbv zeta in Hrun. fold src n fs sel in Hrun, Hrp, Hsyn.
  eexists. eexists. exists rs, rp, (owners 0 groupIndices).
  split; [exact Hrun |].
  split; [reflexivity |]. split; [reflexivity |]. split; [reflexivity |].
  assert (Hlen : length rs = length groupIndices).
  { apply Forall2_length in Hsyn. rewrite length_combine in Hsyn.
    rewrite <- Hsyn, <- (frames_ready_length _ _ _ Hready). lia. }
  split; [exact Hlen |]. split.
  - rewrite owners_length. symmetry. eapply getitems_length; eassumption.
  - intros k j Hk. apply owners_nth in Hk.
    destruct Hk as [_ [g [i [Hg [Hi Hin]]]]]. rewrite Nat.sub_0_r in Hg.
    split.
    + rewrite Hlen. apply nth_error_Some. congruence.
    + destruct (getitems_nth _ _ _ Hrp k i Hi) as [p [Hp Hgp]].
      now exists g, i, p.
Qed.

Lemma every_rigidified_point_has_its_group_witness :
  exists s' ero,
    Rigidify ordered_runtime [[0; 1]; [3]]%Z None None None
             (sample_scene 5) = (s', Ok ero) /\
    rigidIndexPerPoint ero = Some [0; 0; 1]%nat.
Proof.
  destruct (every_rigidified_point_has_its_group
              ordered_runtime [[0; 1]; [3]]%Z None None None
              (sample_scene 5))
    as [s' [ero [rs [rigidified [owner [Hrun _]]]]]].
  - split; reflexivity.
  - repeat split.
  - reflexivity.
  - sample_range.
  - exists s', ero. split; [exact Hrun |].
    vm_compute in Hrun. injection Hrun as _ <-. reflexivity.
Defined.

(** X6. A frame of six or seven scalars keeps its three leading scalars as
    position, and a frame of seven scalars is stored as it is. *)
Theorem explicit_position_is_kept
        (rt : Runtime) (groupIndices : list (list Z))
        (frames : option (list (list Q))) (name : option string)
        (frameOrientation : option (list (list Q))) (s : Scene) :
  let src := sourceObject s in
  let n := length (container_position src) in
  let fs := resolve_frames groupIndices frames frameOrientation in
  well_formed src ->
  components_present src ->
  frames_ready n groupIndices fs = true ->
  (forall i, In i (concat groupIndices) ->
             (- Z.of_nat n <= i < Z.of_nat n)%Z) ->
  exists s' ero rs,
    Rigidify rt groupIndices frames name frameOrientation s = (s', Ok ero) /\
    RigidParts ero = Some rs /\
    Forall2 (fun f r =>
               ((length f = 6%nat \/ length f = 7%nat) ->
                firstn 3 r = firstn 3 f) /\
               (length f = 7%nat -> r = f) /\
               ((length f = 4%nat \/ length f = 7%nat) ->
                length r = 7%nat))
            fs rs.
Proof.
  intros src n fs Hwf Hcomp Hready Hvalid.
  destruct (Rigidify_succeeds rt groupIndices frames name frameOrientation s
              Hwf Hcomp Hready Hvalid)
    as [rs [free [rp [extra [Hsyn [_ [_ [_ [_ Hrun]]]]]]]]].
  cbv zeta in Hrun. fold src n fs in Hrun, Hsyn.
  eexists. eexists. exists rs. split; [exact Hrun |].
  split; [reflexivity |].
  apply (Forall2_combine_snd (synthesized rt (dofs_position src)) _
           groupIndices fs rs (frames_ready_length _ _ _ Hready));
    [| exact Hsyn].
  intros g f r Hs.
  assert (Hr : exists position,
             r = position ++ supplied_orientation rt f /\
             length position = 3%nat).
  { destruct Hs as [position [Hr [Hlen _]]]. now exists position. }
  apply synthesized_parts in Hs. destruct Hs as [Hskip [_ Hpose]].
  destruct (supplied_orientation_cases rt f) as [_ [H4 [_ H7]]].
  split; [| split].
  - intros Hl. apply Hpose. unfold needs_barycenter.
    destruct Hl as [-> | ->]; reflexivity.
  - intros Hl. rewrite <- (firstn_skipn 3 r), <- (firstn_skipn 3 f).
    rewrite Hskip, (H7 Hl). f_equal. apply Hpose.
    unfold needs_barycenter. now rewrite Hl.
  - intros Hl. destruct Hr as [position [-> Hlen]]. rewrite length_app, Hlen.
    destruct Hl as [Hl | Hl].
    + rewrite (H4 Hl), Hl. reflexivity.
    + rewrite (H7 Hl), length_skipn, Hl. reflexivity.
Qed.

Lemma explicit_position_is_kept_witness :
  exists s' ero,
    Rigidify ordered_runtime [[0%Z]; [1%Z]]
             (Some [[7; 8; 9; 0; 0; 0]; [1; 2; 3; 0; 0; 0; 1]]) None None
             (sample_scene 2) = (s', Ok ero) /\
    RigidParts ero =
    Some [[7; 8; 9; 0; 0; 0; 1]; [1; 2; 3; 0; 0; 0; 1]].
Proof.
  destruct (explicit_position_is_kept
              ordered_runtime [[0%Z]; [1%Z]]
              (Some [[7; 8; 9; 0; 0; 0]; [1; 2; 3; 0; 0; 0; 1]]) None None
              (sample_scene 2)) as [s' [ero [rs [Hrun _]]]].
  - split; reflexivity.
  - repeat split.
  - reflexivity.
  - sample_range.
  - exists s', ero. split; [exact Hrun |].
    vm_compute in Hrun. injection Hrun as _ <-. reflexivity.
Defined.

(** ** What a call that returns has done *)

(** X7. A call that returns had the three solver components to remove and
    groups and frames in equal number; it has removed the three
    components, added one node below the target, which is the node
    returned, under the name given or else the name of the source, with
    the coupling attached, and added one mapping to the source. *)
Theorem Rigidify_return
        (rt : Runtime) (groupIndices : list (list Z))
        (frames : option (list (list Q))) (name : option string)
        (frameOrientation : option (list (list Q))) (s s' : Scene)
        (ero : Node) :
  Rigidify rt groupIndices frames name frameOrientation s = (s', Ok ero) ->
  components_present (sourceObject s) /\
  length groupIndices =
  length (resolve_frames groupIndices frames frameOrientation) /\
  solver (sourceObject s') = false /\
  integration (sourceObject s') = false /\
  LinearSolverConstraintCorrection (sourceObject s') = false /\
  targetObject s' = targetObject s ++ [ero] /\
  node_name ero = match name with
                  | Some given => given
                  | None => name_value (sourceObject s)
                  end /\
  coupling_attached ero = true /\
  (exists free rs rigidified owner,
      DeformableParts ero = Some free /\ RigidParts ero = Some rs /\
      RigidifiedParticules ero = Some rigidified /\
      rigidIndexPerPoint ero = Some owner) /\
  mappings (sourceObject s') =
  mappings (sourceObject s) ++ [indexPairs_of s'].
Proof.
  intros Hrun.
  destruct (Rigidify_Ok_inv rt _ _ _ _ _ _ _ Hrun)
    as [Hlen [Hcomp [sel [ip [free [rp [_ [_ [_ [_ [Hero Hs1]]]]]]]]]]].
  split; [assumption |]. split; [assumption |].
  rewrite Hs1. rewrite indexPairs_of_coupled. simpl.
  repeat (split; [reflexivity |]).
  rewrite Hero. split; [now destruct name |]. split; [reflexivity |].
  split; [| reflexivity].
  exists free, (rigids sel), rp, (indicesMap sel). repeat split.
Qed.

Lemma Rigidify_return_witness :
  exists s' ero,
    Rigidify ordered_runtime [[1; 3]%Z] None (Some "mixed"%string) None
             (sample_scene 5) = (s', Ok ero) /\
    node_name ero = "mixed"%string /\
    solver (sourceObject s') = false.
Proof.
  destruct (Rigidify ordered_runtime [[1; 3]%Z] None (Some "mixed"%string)
                     None (sample_scene 5)) as [s' [ero | e]] eqn:Hrun;
    [| vm_compute in Hrun; discriminate].
  destruct (Rigidify_return ordered_runtime _ _ _ _ _ _ _ Hrun)
    as [_ [_ [Hs [_ [_ [_ [Hname _]]]]]]].
  exists s', ero. split; [reflexivity |]. split; assumption.
Defined.

(** ** A source without its components *)

Section Components.

Variable rt : Runtime.

(** The three removals are made one after the other: when a component is
    missing the call ends with an attribute error once the containers are
    added below the target, the components that come before the missing
    one are removed all the same, and no mapping is added. *)
Lemma assemble_removals (pos : list Vec3) (a : list Z) (sel : Selection)
      (s : Scene) (t : list Node) (child : Node) (ip : list Z)
      (free rp : list Vec3) :
  targetObject s = t ++ [child] ->
  Py.flatten
    (Py.values
       (make_Kd a (list_set_difference rt a (selectedIndices sel))
                (selectedIndices sel))) = Ok ip ->
  Py.getitems pos (list_set_difference rt a (selectedIndices sel)) =
  Ok free ->
  Py.getitems pos (selectedIndices sel) = Ok rp ->
  ~ components_present (sourceObject s) ->
  assemble rt pos a sel s =
  ({| messages := messages s;
      targetObject :=
        t ++ [unfinished child free (rigids sel) rp (indicesMap sel)];
      sourceObject :=
        if solver (sourceObject s)
        then if integration (sourceObject s)
             then remove_integration (remove_solver (sourceObject s))
             else remove_solver (sourceObject s)
        else sourceObject s |}, Raise AttributeError).
Proof.
  intros Ht Hip Hfree Hrp Hc.
  unfold assemble, bind, lift. rewrite Hip, Hfree.
  unfold modify_ero at 1 2. scene_simpl. rewrite Hrp.
  unfold modify_ero, removeObject, set_source, get_ero. scene_simpl.
  rewrite Ht, !update_last_snoc.
  destruct (solver (sourceObject s)) eqn:Hs; scene_simpl;
    [| reflexivity].
  destruct (integration (sourceObject s)) eqn:Hi; scene_simpl;
    [| reflexivity].
  destruct (LinearSolverConstraintCorrection (sourceObject s)) eqn:Hl;
    [| reflexivity].
  exfalso. apply Hc. now repeat split.
Qed.

End Components.

(** X8. When a solver component is missing, the call ends with an attribute
    error once the containers are added below the target; the solver, if
    there, is removed all the same, and no mapping is added. *)
Theorem missing_component_is_met_late
        (rt : Runtime) (groupIndices : list (list Z))
        (frames : option (list (list Q))) (name : option string)
        (frameOrientation : option (list (list Q))) (s : Scene) :
  let src := sourceObject s in
  let n := length (container_position src) in
  let fs := resolve_frames groupIndices frames frameOrientation in
  well_formed src ->
  frames_ready n groupIndices fs = true ->
  (forall i, In i (concat groupIndices) ->
             (- Z.of_nat n <= i < Z.of_nat n)%Z) ->
  ~ components_present src ->
  exists s' child,
    Rigidify rt groupIndices frames name frameOrientation s =
    (s', Raise AttributeError) /\
    targetObject s' = targetObject s ++ [child] /\
    DeformableParts child <> None /\ RigidParts child <> None /\
    RigidifiedParticules child <> None /\
    rigidIndexPerPoint child <> None /\
    coupling_attached child = false /\
    mappings (sourceObject s') = mappings src /\
    solver (sourceObject s') = false /\
    integration (sourceObject s') =
    (integration src && negb (solver src))%bool /\
    LinearSolverConstraintCorrection (sourceObject s') =
    LinearSolverConstraintCorrection src.
Proof.
  intros src n fs [Hpoints Hdofs] Hready Hvalid Hc.
  rewrite Rigidify_unfold. cbv zeta. fold src fs.
  rewrite (frames_ready_length _ _ _ Hready), Nat.eqb_refl. simpl negb.
  cbv iota. rewrite Hpoints. fold n.
  set (s0 := fst (addChild (child_name name src)
                           (warned frameOrientation s))).
  pose proof (group_loop_ready rt (dofs_position src) groupIndices fs 0
                no_selection s0) as Hloop.
  rewrite Hdofs in Hloop. fold n in Hloop.
  destruct (Hloop Hready) as [rs [Hrun _]]. clear Hloop.
  rewrite Hrun. unfold advance, no_selection. simpl app.
  set (sel := concat groupIndices) in *.
  set (other := list_set_difference rt (Py.range n) sel).
  destruct (Kd_flatten_total (Py.range n) other sel) as [ip Hip].
  { intros x Hx. now apply other_cover. }
  destruct (getitems_valid (container_position src) other) as [free Hfree].
  { intros j Hj. apply list_set_difference_In in Hj. destruct Hj as [Hj _].
    apply range_In in Hj. fold n. lia. }
  destruct (getitems_valid (container_position src) sel) as [rp Hrp].
  { intros j Hj. fold n. now apply Hvalid. }
  destruct (warned_scene frameOrientation s) as [Hwt Hws].
  assert (Ht : targetObject s0 =
               targetObject s ++ [new_child (child_name name src)])
    by (unfold s0; simpl; now rewrite Hwt).
  assert (Hs0 : sourceObject s0 = src)
    by (unfold s0; simpl; now rewrite Hws).
  assert (Hc0 : ~ components_present (sourceObject s0))
    by now rewrite Hs0.
  rewrite (assemble_removals rt (container_position src) (Py.range n)
             {| rigids := rs; selectedIndices := sel;
                indicesMap := owners 0 groupIndices |}
             s0 _ _ ip free rp Ht Hip Hfree Hrp Hc0).
  eexists. eexists. split; [reflexivity |].
  cbn [targetObject sourceObject messages]. rewrite Hs0.
  split; [reflexivity |].
  do 4 (split; [discriminate |]). split; [reflexivity |].
  destruct (solver src) eqn:Hs; [destruct (integration src) eqn:Hi |];
    simpl; rewrite ?Hs, ?Hi, ?andb_true_r; repeat split.
Qed.

Definition without_integration (s : Scene) : Scene :=
  {| messages := messages s;
     targetObject := targetObject s;
     sourceObject := remove_integration (sourceObject s) |}.

(** A source with a solver and no integration loses its solver. *)
Lemma missing_component_is_met_late_witness :
  exists s',
    Rigidify ordered_runtime [[1; 3]%Z] None None None
             (without_integration (sample_scene 5)) =
    (s', Raise AttributeError) /\
    solver (sourceObject s') = false /\
    length (targetObject s') = 1%nat.
Proof.
  destruct (missing_component_is_met_late
              ordered_runtime [[1; 3]%Z] None None None
              (without_integration (sample_scene 5)))
    as [s' [child [Hrun [Ht [_ [_ [_ [_ [_ [_ [Hs _]]]]]]]]]]].
  - split; reflexivity.
  - reflexivity.
  - sample_range.
  - intros [_ [Hi _]]. discriminate.
  - exists s'. split; [exact Hrun |]. split; [exact Hs |].
    rewrite Ht. reflexivity.
Defined.

(** ** A negative index *)

Lemma getitem_negative {A : Type} (l : list A) (i : Z) :
  (i < 0)%Z -> (0 <= i + Z.of_nat (length l))%Z ->
  Py.getitem l i = Py.getitem l (i + Z.of_nat (length l)).
Proof.
  intros Hneg Hpos. unfold Py.getitem. cbv zeta.
  assert (H1 : (i <? 0)%Z = true) by now apply Z.ltb_lt.
  assert (H2 : (i + Z.of_nat (length l) <? 0)%Z = false)
    by now apply Z.ltb_ge.
  now rewrite H1, !H2.
Qed.

Lemma Kd_keys_NoDup_general (a o sel : list Z) :
  NoDup (Py.keys (make_Kd a o sel)).
Proof.
  unfold make_Kd.
  destruct (keys_update (Py.comprehension (fun _ _ => None) a)
              (Py.comprehension (fun k _ => Some [0%Z; Z.of_nat k]) o)
              (keys_comprehension_NoDup _ a)) as [e1 [Hk1 [Hnd1 _]]].
  destruct (keys_update
              (Py.update (Py.comprehension (fun _ _ => None) a)
                 (Py.comprehension (fun k _ => Some [0%Z; Z.of_nat k]) o))
              (Py.comprehension (fun k _ => Some [1%Z; Z.of_nat k]) sel))
    as [e2 [Hk2 [Hnd2 _]]]; [now rewrite Hk1 |].
  now rewrite Hk2.
Qed.

Lemma Kd_keys_In (a o sel : list Z) (x : Z) :
  In x (Py.keys (make_Kd a o sel)) <-> In x a \/ In x o \/ In x sel.
Proof.
  rewrite <- (contains_In x a), <- (contains_In x o), <- (contains_In x sel).
  pose proof (Kd_get a o sel x) as Hg.
  destruct (Py.contains x sel); [| destruct (Py.contains x o);
                                   [| destruct (Py.contains x a)]].
  - split; [tauto | intros _]. eapply get_Some_keys; eassumption.
  - split; [tauto | intros _]. eapply get_Some_keys; eassumption.
  - split; [tauto | intros _]. eapply get_Some_keys; eassumption.
  - apply get_None in Hg. split; [contradiction |].
    intros [H | [H | H]]; discriminate.
Qed.

Lemma Kd_flatten_keys (a o sel : list Z) :
  (forall x, In x a -> In x sel \/ In x o) ->
  Py.flatten (Py.values (make_Kd a o sel)) =
  Ok (flat_map (index_pair o sel) (Py.keys (make_Kd a o sel))).
Proof.
  intros Hcover.
  rewrite values_get by apply Kd_keys_NoDup_general.
  rewrite <- flatten_map. f_equal. apply map_ext_in.
  intros x Hx. rewrite Kd_get. unfold index_pair.
  destruct (Py.contains x sel) eqn:Es; [reflexivity |].
  destruct (Py.contains x o) eqn:Eo; [reflexivity |].
  apply contains_false in Es, Eo. exfalso.
  apply Kd_keys_In in Hx. destruct Hx as [Hx | [Hx | Hx]];
    try contradiction.
  destruct (Hcover x Hx); contradiction.
Qed.

(** X9. A negative index that Python can read is rigidified, and the point it
    designates stays free when its own index is in no group: the point
    sits in both containers, and the index pairs count one pair more than
    the cloud has points. *)
Theorem negative_index_duplicates_a_point
        (rt : Runtime) (groupIndices : list (list Z))
        (frames : option (list (list Q))) (name : option string)
        (frameOrientation : option (list (list Q))) (s : Scene) (i : Z) :
  let src := sourceObject s in
  let n := length (container_position src) in
  let fs := resolve_frames groupIndices frames frameOrientation in
  let sel := concat groupIndices in
  well_formed src ->
  components_present src ->
  frames_ready n groupIndices fs = true ->
  (forall j, In j sel -> (- Z.of_nat n <= j < Z.of_nat n)%Z) ->
  In i sel -> (i < 0)%Z -> ~ In (i + Z.of_nat n)%Z sel ->
  exists s' ero free rigidified p,
    Rigidify rt groupIndices frames name frameOrientation s = (s', Ok ero) /\
    DeformableParts ero = Some free /\
    RigidifiedParticules ero = Some rigidified /\
    nth_error (container_position src) (Z.to_nat (i + Z.of_nat n)) =
    Some p /\
    In p free /\ In p rigidified /\
    (2 * n < length (indexPairs_of s'))%nat.
Proof.
  intros src n fs sel Hwf Hcomp Hready Hvalid Hi Hneg Hfree_i.
  destruct (Rigidify_succeeds rt groupIndices frames name frameOrientation s
              Hwf Hcomp Hready Hvalid)
    as [rs [free [rp [extra [_ [_ [_ [Hfree [Hrp Hrun]]]]]]]]].
  cbv zeta in Hrun. fold src n fs sel in Hrun, Hfree, Hrp.
  set (other := list_set_difference rt (Py.range n) sel) in *.
  pose proof (Hvalid i Hi) as Hvi.
  assert (Ho : In (i + Z.of_nat n)%Z other).
  { apply list_set_difference_In. split; [| assumption].
    apply range_In. lia. }
  apply In_nth_error in Ho. destruct Ho as [ko Hko].
  destruct (getitems_nth _ _ _ Hfree ko _ Hko) as [p [Hp Hgp]].
  apply In_nth_error in Hi as Hki. destruct Hki as [ks Hks].
  destruct (getitems_nth _ _ _ Hrp ks _ Hks) as [p' [Hp' Hgp']].
  rewrite getitem_negative in Hgp' by (fold n; lia). fold n in Hgp'.
  assert (p' = p) by congruence. subst p'.
  destruct (Rigidify_Ok_inv rt _ _ _ _ _ _ _ Hrun)
    as [_ [_ [sel0 [ip [free0 [rp0 [Hloop [Hip [_ [_ [_ Hs1]]]]]]]]]]].
  eexists. eexists. exists free, rp, p. split; [exact Hrun |].
  split; [reflexivity |]. split; [reflexivity |].
  split; [apply getitem_Ok_nonneg; [lia | assumption] |].
  split; [eapply nth_error_In; eassumption |].
  split; [eapply nth_error_In; eassumption |].
  apply (f_equal (fun sc => mappings (sourceObject sc))) in Hs1.
  simpl in Hs1. apply app_inv_head in Hs1. rename Hs1 into Hmap.
  rewrite indexPairs_of_coupled.
  pose proof (Hloop s) as Hl. apply group_loop_Ok in Hl.
  destruct Hl as [_ [_ [Hsel _]]]. simpl in Hsel. fold sel in Hsel.
  destruct Hwf as [Hpoints _]. fold src in Hpoints. fold src in Hip.
  rewrite Hpoints, Hsel in Hip. fold n in Hip.
  rewrite Kd_flatten_keys in Hip by (intros x Hx; now apply other_cover).
  injection Hip as Hip. injection Hmap as Hmap.
  rewrite Hmap, <- Hip, index_pairs_length.
  assert (Hincl : (length (i :: Py.range n) <=
                   length (Py.keys (make_Kd (Py.range n)
                              (list_set_difference rt (Py.range n) sel)
                              sel)))%nat).
  { apply NoDup_incl_length.
    - constructor; [| apply range_NoDup]. rewrite range_In. lia.
    - intros x [<- | Hx]; apply Kd_keys_In; tauto. }
  simpl in Hincl. rewrite range_length in Hincl. lia.
Qed.

Lemma negative_index_duplicates_a_point_witness :
  exists s' ero free rigidified,
    Rigidify ordered_runtime [[(-1)%Z]] (Some [[0; 0; 0; 0; 0; 0; 1]])
             None None (sample_scene 3) = (s', Ok ero) /\
    DeformableParts ero = Some free /\
    RigidifiedParticules ero = Some rigidified /\
    In (sample_point 2) free /\ In (sample_point 2) rigidified.
Proof.
  destruct (negative_index_duplicates_a_point
              ordered_runtime [[(-1)%Z]] (Some [[0; 0; 0; 0; 0; 0; 1]])
              None None (sample_scene 3) (-1)%Z)
    as [s' [ero [free [rigidified [p [Hrun [Hf [Hr [Hp [Hpf [Hpr _]]]]]]]]]]].
  - split; reflexivity.
  - repeat split.
  - reflexivity.
  - sample_range.
  - now left.
  - lia.
  - simpl. intuition lia.
  - exists s', ero, free, rigidified.
    split; [exact Hrun |]. split; [exact Hf |]. split; [exact Hr |].
    vm_compute in Hp. injection Hp as <-. split; assumption.
Defined.

(** ** The local function mfilter *)

(** X11. [mfilter(si, ai, pts)] reads the group [si] as a set: two groups with
    the same indices, in whatever order or number, select the same points,
    in the order of [ai]. *)
Theorem mfilter_reads_the_group_as_a_set
        (si si' ai : list Z) (pts : list Vec3) :
  (forall i, In i si <-> In i si') ->
  mfilter si ai pts = mfilter si' ai pts.
Proof.
  intros Hsame. rewrite !mfilter_getitems. f_equal.
  apply filter_ext. intros i.
  destruct (Py.contains i si) eqn:E; symmetry.
  - apply contains_In, Hsame, contains_In, E.
  - apply contains_false. rewrite <- Hsame. now apply contains_false.
Qed.

Lemma mfilter_reads_the_group_as_a_set_witness :
  mfilter [3; 1; 3]%Z (Py.range 5) (map sample_point (Py.range 5)) =
  mfilter [1; 3]%Z (Py.range 5) (map sample_point (Py.range 5)).
Proof.
  apply mfilter_reads_the_group_as_a_set.
  intros i. simpl. intuition lia.
Defined.

Lemma getitem_In {A : Type} (l : list A) (i : Z) (a : A) :
  Py.getitem l i = Ok a -> In a l.
Proof.
  unfold Py.getitem. destruct (_ || _)%bool; [discriminate |].
  destruct (nth_error l _) as [b |] eqn:E; [| discriminate].
  intros H. injection H as <-. eapply nth_error_In; eassumption.
Qed.

Lemma getitems_Raise_inv {A : Type} (a : list A) (idx : list Z) (e : exn) :
  Py.getitems a idx = Raise e ->
  exists i, In i idx /\
            (i < - Z.of_nat (length a) \/ Z.of_nat (length a) <= i)%Z.
Proof.
  induction idx as [| j idx IH]; simpl; [discriminate |].
  destruct (Py.getitem a j) as [x |] eqn:Hj.
  - destruct (Py.getitems a idx) as [xs |]; [discriminate |].
    intros H. destruct (IH H) as [i [Hi Hout]].
    exists i. split; [now right | assumption].
  - intros _. exists j. split; [now left |].
    destruct (Z_lt_le_dec j (- Z.of_nat (length a))) as [Hlo | Hlo];
      [now left |].
    destruct (Z_lt_le_dec j (Z.of_nat (length a))) as [Hhi | Hhi];
      [| now right].
    destruct (getitem_valid a j) as [x Hx]; [lia | congruence].
Qed.

Lemma getitems_In {A : Type} (a : list A) (idx : list Z) (xs : list A) :
  Py.getitems a idx = Ok xs -> forall p, In p xs -> In p a.
Proof.
  revert xs. induction idx as [| j idx IH]; intros xs H p Hp; simpl in H.
  - injection H as <-. contradiction.
  - destruct (Py.getitem a j) as [x |] eqn:Hj; [| discriminate].
    destruct (Py.getitems a idx) as [ys |]; [| discriminate].
    injection H as <-. destruct Hp as [<- | Hp].
    + eapply getitem_In; eassumption.
    + now apply (IH ys).
Qed.

(** X12. [mfilter] visits the indices of [ai] and no other: an index of the
    group that [ai] does not hold is left out, and the call raises, an
    index error, exactly when an index of [ai] that the group holds is
    out of the bounds of [pts]. A call that returns gives one point of
    [pts] for each index of [ai] that the group holds. *)
Theorem mfilter_outcome (si ai : list Z) (pts : list Vec3) :
  ((exists e, mfilter si ai pts = Raise e) <->
   exists i, In i ai /\ In i si /\
             (i < - Z.of_nat (length pts) \/ Z.of_nat (length pts) <= i)%Z)
  /\
  (forall e, mfilter si ai pts = Raise e -> e = IndexError) /\
  (forall r, mfilter si ai pts = Ok r ->
             length r = length (filter (fun i => Py.contains i si) ai) /\
             forall p, In p r -> In p pts).
Proof.
  rewrite mfilter_getitems. split; [| split].
  - split.
    + intros [e He]. apply getitems_Raise_inv in He.
      destruct He as [i [Hi Hout]]. apply filter_In in Hi.
      destruct Hi as [Hai Hsi]. apply contains_In in Hsi. now exists i.
    + intros [i [Hai [Hsi Hout]]]. exists IndexError.
      apply (getitems_invalid pts _ i); [| assumption].
      apply filter_In. split; [assumption | now apply contains_In].
  - intros e. apply getitems_Raise.
  - intros r Hr. split.
    + eapply getitems_length; eassumption.
    + eapply getitems_In; eassumption.
Qed.

(** ** Any call that returns *)

Lemma decode_index_pairs_app {A : Type} (free rigidified : list A)
      (o sel l1 l2 : list Z) :
  decode free rigidified (flat_map (index_pair o sel) (l1 ++ l2)) =
  decode free rigidified (flat_map (index_pair o sel) l1) ++
  decode free rigidified (flat_map (index_pair o sel) l2).
Proof.
  induction l1 as [| x l1 IH]; [reflexivity |].
  simpl app. simpl flat_map.
  pose proof (index_pair_length o sel x) as Hlen.
  destruct (index_pair o sel x) as [| t [| k [| ? ?]]]; try discriminate.
  simpl. now rewrite IH.
Qed.

Lemma decode_index_pairs_length {A : Type} (free rigidified : list A)
      (o sel l : list Z) :
  length (decode free rigidified (flat_map (index_pair o sel) l)) = length l.
Proof.
  induction l as [| x l IH]; [reflexivity |].
  simpl flat_map.
  pose proof (index_pair_length o sel x) as Hlen.
  destruct (index_pair o sel x) as [| t [| k [| ? ?]]]; try discriminate.
  simpl. now rewrite IH.
Qed.

(** X10. Whenever a call on a well-formed source returns, whatever the groups
    and the frames, the first pairs of the sequence, one for each point,
    give the cloud back through the two containers; the pairs that follow
    are those of the group indices that are no index of the cloud. *)
Theorem returned_pairs_rebuild_the_cloud
        (rt : Runtime) (groupIndices : list (list Z))
        (frames : option (list (list Q))) (name : option string)
        (frameOrientation : option (list (list Q))) (s s' : Scene)
        (ero : Node) :
  let src := sourceObject s in
  let n := length (container_position src) in
  well_formed src ->
  Rigidify rt groupIndices frames name frameOrientation s = (s', Ok ero) ->
  exists free rigidified,
    DeformableParts ero = Some free /\
    RigidifiedParticules ero = Some rigidified /\
    firstn n (decode free rigidified (indexPairs_of s')) =
    map Some (container_position src) /\
    (n <= length (decode free rigidified (indexPairs_of s')))%nat /\
    ((forall i, In i (concat groupIndices) -> (0 <= i)%Z) ->
     decode free rigidified (indexPairs_of s') =
     map Some (container_position src)).
Proof.
  intros src n [Hpoints Hdofs] Hrun.
  destruct (Rigidify_Ok_inv rt _ _ _ _ _ _ _ Hrun)
    as [_ [_ [sel [ip [free [rp
          [Hloop [Hip [Hfree [Hrp [Hero Hs1]]]]]]]]]]].
  fold src in Hloop, Hip, Hfree, Hrp, Hero, Hs1.
  rewrite Hpoints in Hip, Hfree. fold n in Hip, Hfree.
  pose proof (Hloop s) as Hl. apply group_loop_Ok in Hl.
  destruct Hl as [_ [_ [Hsel _]]]. simpl in Hsel.
  set (sl := selectedIndices sel) in *.
  set (other := list_set_difference rt (Py.range n) sl) in *.
  destruct (Kd_flatten (Py.range n) other sl (range_NoDup n))
    as [extra [Hnd [Hextra Hflat]]].
  { intros x Hx. now apply other_cover. }
  rewrite Hflat in Hip. injection Hip as <-.
  exists free, rp. rewrite Hero, Hs1, indexPairs_of_coupled.
  split; [reflexivity |]. split; [reflexivity |].
  rewrite decode_index_pairs_app.
  assert (Hdec : decode free rp
                        (flat_map (index_pair other sl) (Py.range n)) =
                 map Some (container_position src)).
  { destruct (getitems_Forall2 (container_position src) (Py.range n)
                (decode free rp
                        (flat_map (index_pair other sl) (Py.range n))))
      as [xs [Hxs Hxl]].
    - apply (decode_containers (container_position src) free rp other sl);
        try assumption.
      intros x Hx. now apply other_cover.
    - unfold n in Hxs. rewrite getitems_range in Hxs. injection Hxs as <-.
      exact Hxl. }
  rewrite Hdec. split; [| split].
  - rewrite firstn_app, length_map. fold n. rewrite Nat.sub_diag.
    simpl. rewrite app_nil_r. apply firstn_all2. rewrite length_map.
    fold n. lia.
  - rewrite length_app, length_map. fold n. lia.
  - intros Hpos.
    assert (Hnil : extra = []).
    { destruct extra as [| x extra]; [reflexivity |]. exfalso.
      assert (Hx : In x (x :: extra)) by now left.
      destruct (Hextra x Hx) as [Ho | Hs].
      - apply list_set_difference_In in Ho. destruct Ho as [Ho _].
        exact (NoDup_app_In _ _ x Hnd Ho Hx).
      - assert (Hvalid : (- Z.of_nat n <= x < Z.of_nat n)%Z).
        { destruct (Z_lt_le_dec x (- Z.of_nat n)) as [Hlo | Hlo].
          - rewrite (getitems_invalid _ _ x Hs (or_introl Hlo)) in Hrp.
            discriminate.
          - destruct (Z_lt_le_dec x (Z.of_nat n)) as [Hhi | Hhi];
              [lia |].
            rewrite (getitems_invalid _ _ x Hs (or_intror Hhi)) in Hrp.
            discriminate. }
        assert (Hs' : In x (concat groupIndices))
          by (rewrite <- Hsel; exact Hs).
        apply Hpos in Hs'.
        apply (NoDup_app_In _ _ x Hnd); [| assumption].
        apply range_In. lia. }
    rewrite Hnil. simpl. apply app_nil_r.
Qed.

Lemma returned_pairs_rebuild_the_cloud_witness :
  exists s' ero free rigidified,
    Rigidify ordered_runtime [[(-1)%Z]] (Some [[0; 0; 0; 0; 0; 0; 1]])
             None None (sample_scene 3) = (s', Ok ero) /\
    firstn 3 (decode free rigidified (indexPairs_of s')) =
    map Some (map sample_point [0; 1; 2]%Z).
Proof.
  destruct (Rigidify ordered_runtime [[(-1)%Z]]
                     (Some [[0; 0; 0; 0; 0; 0; 1]]) None None
                     (sample_scene 3)) as [s' [ero | e]] eqn:Hrun;
    [| vm_compute in Hrun; discriminate].
  destruct (returned_pairs_rebuild_the_cloud
              ordered_runtime [[(-1)%Z]] (Some [[0; 0; 0; 0; 0; 0; 1]])
              None None (sample_scene 3) s' ero)
    as [free [rigidified [_ [_ [Hdec _]]]]].
  - split; reflexivity.
  - exact Hrun.
  - exists s', ero, free, rigidified. split; [reflexivity | exact Hdec].
Defined.

(** * The toolbox of the cart and pole *)

Lemma Qlt_bool_iff (x y : Q) : CartPole.Qlt_bool x y = true <-> x < y.
Proof.
  unfold CartPole.Qlt_bool. rewrite negb_true_iff.
  split.
  - intros H. apply Qnot_le_lt. intros Hle.
    apply Qle_bool_iff in Hle. congruence.
  - intros H. destruct (Qle_bool y x) eqn:E; [| reflexivity].
    apply Qle_bool_iff in E. exfalso. exact (Qlt_not_le _ _ H E).
Qed.

Lemma Qlt_bool_false (x y : Q) : CartPole.Qlt_bool x y = false <-> y <= x.
Proof.
  unfold CartPole.Qlt_bool. rewrite negb_false_iff. apply Qle_bool_iff.
Qed.

(** ** The constructor of the reward shaper *)

Lemma rewardShaper_init_returns
      (kwargs : list (string * CartPole.value))
      (root_arg angle_arg length_arg : CartPole.value) :
  CartPole.lookup kwargs "rootNode" = CartPole.Return root_arg ->
  CartPole.lookup kwargs "max_angle" = CartPole.Return angle_arg ->
  CartPole.lookup kwargs "pole_length" = CartPole.Return length_arg ->
  CartPole.truthy length_arg = true ->
  root_arg = CartPole.PyNode ->
  CartPole.rewardShaper_init kwargs =
  ([], CartPole.Return
         {| CartPole.rootNode := CartPole.PyNode;
            CartPole.max_angle :=
              if CartPole.truthy angle_arg then Some angle_arg else None;
            CartPole.pole_length := Some length_arg |}).
Proof.
  intros Hroot Hangle Hlength Hl ->. unfold CartPole.rewardShaper_init.
  now rewrite Hroot, Hangle, Hlength, Hl.
Qed.

(** X13. With the three keys given, the constructor prints its message and
    exits with status 1 exactly when [pole_length] is false as a
    condition, whatever [max_angle] is; otherwise it prints nothing, ends
    with an attribute error unless [rootNode] is a node, and returns an
    object whose [max_angle] is set only when the argument is true as a
    condition. *)
Theorem rewardShaper_init_guards_the_pole_length
        (kwargs : list (string * CartPole.value))
        (root_arg angle_arg length_arg : CartPole.value) :
  CartPole.lookup kwargs "rootNode" = CartPole.Return root_arg ->
  CartPole.lookup kwargs "max_angle" = CartPole.Return angle_arg ->
  CartPole.lookup kwargs "pole_length" = CartPole.Return length_arg ->
  (CartPole.truthy length_arg = false <->
   CartPole.rewardShaper_init kwargs =
   ([CartPole.error_text], CartPole.Throw (CartPole.SystemExit 1))) /\
  (CartPole.truthy length_arg = true -> root_arg <> CartPole.PyNode ->
   CartPole.rewardShaper_init kwargs =
   ([], CartPole.Throw CartPole.AttributeError)) /\
  (CartPole.truthy length_arg = true -> root_arg = CartPole.PyNode ->
   CartPole.rewardShaper_init kwargs =
   ([], CartPole.Return
          {| CartPole.rootNode := CartPole.PyNode;
             CartPole.max_angle :=
               if CartPole.truthy angle_arg then Some angle_arg else None;
             CartPole.pole_length := Some length_arg |})).
Proof.
  intros Hroot Hangle Hlength. unfold CartPole.rewardShaper_init.
  rewrite Hroot, Hangle, Hlength.
  destruct (CartPole.truthy length_arg) eqn:Hl.
  - split; [| split].
    + split; [discriminate |].
      destruct (if CartPole.truthy root_arg then root_arg
                else CartPole.PyNone); discriminate.
    + intros _ Hn. destruct root_arg; simpl; try reflexivity.
      * destruct (negb _); reflexivity.
      * now contradiction Hn.
    + intros _ ->. reflexivity.
  - split; [| split]; [split; reflexivity | discriminate | discriminate].
Qed.

Lemma rewardShaper_init_guards_the_pole_length_witness :
  CartPole.rewardShaper_init
    [("name"%string, CartPole.PyNone);
     ("rootNode"%string, CartPole.PyNode);
     ("max_angle"%string, CartPole.PyFloat 1);
     ("pole_length"%string, CartPole.PyFloat 0)] =
  ([CartPole.error_text], CartPole.Throw (CartPole.SystemExit 1)).
Proof.
  destruct (rewardShaper_init_guards_the_pole_length
              [("name"%string, CartPole.PyNone);
               ("rootNode"%string, CartPole.PyNode);
               ("max_angle"%string, CartPole.PyFloat 1);
               ("pole_length"%string, CartPole.PyFloat 0)]
              CartPole.PyNode (CartPole.PyFloat 1) (CartPole.PyFloat 0)
              eq_refl eq_refl eq_refl) as [Hexit _].
  apply Hexit. reflexivity.
Defined.

(** X14. A key that is not given ends the constructor with a key error: the
    first one missing among [rootNode], [max_angle] and [pole_length], in
    that order; nothing is printed. *)
Theorem rewardShaper_init_missing_key
        (kwargs : list (string * CartPole.value)) (key : string)
        (out : list string) :
  CartPole.rewardShaper_init kwargs =
  (out, CartPole.Throw (CartPole.KeyError key)) <->
  out = [] /\
  CartPole.lookup kwargs key = CartPole.Throw (CartPole.KeyError key) /\
  (key = "rootNode"%string \/
   (key = "max_angle"%string /\
    exists v, CartPole.lookup kwargs "rootNode" = CartPole.Return v) \/
   (key = "pole_length"%string /\
    (exists v, CartPole.lookup kwargs "rootNode" = CartPole.Return v) /\
    exists v, CartPole.lookup kwargs "max_angle" = CartPole.Return v)).
Proof.
  assert (Hkey : forall kw k e,
             CartPole.lookup kw k = CartPole.Throw e ->
             e = CartPole.KeyError k).
  { induction kw as [| [k0 v0] kw IH]; intros k e; simpl.
    - congruence.
    - destruct (String.eqb k0 k); [discriminate | apply IH]. }
  unfold CartPole.rewardShaper_init.
  destruct (CartPole.lookup kwargs "rootNode") as [r |] eqn:Hr.
  - destruct (CartPole.lookup kwargs "max_angle") as [a |] eqn:Ha.
    + destruct (CartPole.lookup kwargs "pole_length") as [l |] eqn:Hl.
      * split.
        -- destruct (CartPole.truthy l); [| discriminate].
           destruct (if CartPole.truthy r then r else CartPole.PyNone);
             discriminate.
        -- intros [_ [Hk [-> | [[-> _] | [-> _]]]]]; congruence.
      * apply Hkey in Hl as He. subst e. split.
        -- intros H. injection H as <- <-. split; [reflexivity |].
           split; [assumption |]. right. right.
           split; [reflexivity |]. split; eexists; reflexivity.
        -- intros [-> [Hk [-> | [[-> _] | [-> _]]]]];
             first [congruence | reflexivity].
    + apply Hkey in Ha as He. subst e. split.
      * intros H. injection H as <- <-. split; [reflexivity |].
        split; [assumption |]. right. left.
        split; [reflexivity |]. eexists; reflexivity.
      * intros [-> [Hk [-> | [[-> _] | [-> [_ [v Hv]]]]]]];
          first [congruence | reflexivity].
  - apply Hkey in Hr as He. subst e. split.
    + intros H. injection H as <- <-. split; [reflexivity |].
      split; [assumption |]. now left.
    + intros [-> [Hk [-> | [[-> [v Hv]] | [-> [[v Hv] _]]]]]];
        first [congruence | reflexivity].
Qed.

(** ** The reward *)

Section Reward.

Variable pi : Q.
Variable asin : Q -> CartPole.outcome Q.

(** What [calculatePoleTheta] returns: an angle of the magnitude
    |90 pi / 180 - asin(y / pole_length)|, negative when the pole is on
    the left of the cart and positive or zero otherwise, and the last
    component of the velocity of the pole. *)
Lemma calculatePoleTheta_Return (self : CartPole.rewardShaper)
      (scene : CartPole.Scene) (cart_pos theta theta_dot : Q) :
  CartPole.calculatePoleTheta pi asin self scene cart_pos =
  CartPole.Return (theta, theta_dot) ->
  exists x y len a v,
    CartPole._getPolePos scene = CartPole.Return (x, y) /\
    CartPole.pole_length self = Some (CartPole.PyFloat len) /\
    ~ len == 0 /\
    asin (y / len) = CartPole.Return a /\
    CartPole.item (CartPole.velocity (CartPole.Pole scene)) 0 =
    CartPole.Return v /\
    CartPole.item v 5 = CartPole.Return theta_dot /\
    theta = if CartPole.Qlt_bool x cart_pos
            then - Qabs (90 * pi / 180 - a)
            else Qabs (90 * pi / 180 - a).
Proof.
  unfold CartPole.calculatePoleTheta, CartPole.and_then.
  destruct (CartPole._getPolePos scene) as [[x y] |]; [| discriminate].
  destruct (CartPole.pole_length self) as [[| len |] |]; simpl;
    try discriminate.
  destruct (Qeq_bool len 0) eqn:Hz; [discriminate |].
  destruct (asin (y / len)) as [a |] eqn:Ha; [| discriminate].
  destruct (CartPole.item (CartPole.velocity (CartPole.Pole scene)) 0)
    as [v |] eqn:Hv; [| discriminate].
  destruct (CartPole.item v 5) as [d |] eqn:Hd; [| discriminate].
  intros H. injection H as <- <-.
  exists x, y, len, a, v.
  split; [reflexivity |]. split; [reflexivity |]. split.
  { intros Hlen. apply Qeq_bool_iff in Hlen. congruence. }
  split; [assumption |]. split; [reflexivity |]. split;
    [assumption | reflexivity].
Qed.

End Reward.





(** X18. With a bound that is not negative, the episode is done or not
    whatever the side the pole leans to: two scenes that differ by the
    place of the cart give the same answer. *)
Theorem done_ignores_the_side
        (pi : Q) (asin : Q -> CartPole.outcome Q)
        (self : CartPole.rewardShaper) (scene scene' : CartPole.Scene)
        (bound : Q) (done done' : bool) (reward reward' : Q) :
  CartPole.max_angle self = Some (CartPole.PyFloat bound) ->
  0 <= bound ->
  CartPole.Pole scene' = CartPole.Pole scene ->
  CartPole.getReward pi asin self scene = CartPole.Return (done, reward) ->
  CartPole.getReward pi asin self scene' =
  CartPole.Return (done', reward') ->
  done' = done /\ reward' = reward.
Proof.
  intros Hbound Hpos Hpole.
  assert (Hrun : forall sc dn rw,
             CartPole.getReward pi asin self sc = CartPole.Return (dn, rw) ->
             exists cp theta d,
               CartPole.calculatePoleTheta pi asin self sc cp =
               CartPole.Return (theta, d) /\
               rw = 1 /\
               dn = (CartPole.Qlt_bool bound theta
                     || CartPole.Qlt_bool theta (- bound))%bool).
  { intros sc dn rw.
    unfold CartPole.getReward, CartPole.rewardShaper_getReward,
      CartPole.and_then.
    destruct (CartPole._getCartPos sc) as [cp |]; [| discriminate].
    destruct (CartPole.calculatePoleTheta pi asin self sc cp)
      as [[theta d] |] eqn:Hcalc; [| discriminate].
    rewrite Hbound. simpl. intros H. injection H as <- <-.
    now exists cp, theta, d. }
  intros H1 H2.
  destruct (Hrun _ _ _ H1) as [c1 [t1 [d1 [Hc1 [-> ->]]]]].
  destruct (Hrun _ _ _ H2) as [c2 [t2 [d2 [Hc2 [-> ->]]]]].
  split; [| reflexivity].
  apply calculatePoleTheta_Return in Hc1, Hc2.
  destruct Hc1 as [x1 [y1 [l1 [a1 [v1 [Hxy1 [Hl1 [_ [Ha1 [_ [_ Ht1]]]]]]]]]]].
  destruct Hc2 as [x2 [y2 [l2 [a2 [v2 [Hxy2 [Hl2 [_ [Ha2 [_ [_ Ht2]]]]]]]]]]].
  unfold CartPole._getPolePos in Hxy1, Hxy2. rewrite Hpole in Hxy2.
  rewrite Hxy1 in Hxy2. injection Hxy2 as <- <-.
  rewrite Hl1 in Hl2. injection Hl2 as <-.
  rewrite Ha1 in Ha2. injection Ha2 as <-.
  set (m := Qabs (90 * pi / 180 - a1)) in *.
  assert (Hm : 0 <= m) by apply Qabs_nonneg.
  assert (Hside : forall t, t = m \/ t = - m ->
             (CartPole.Qlt_bool bound t
              || CartPole.Qlt_bool t (- bound))%bool =
             CartPole.Qlt_bool bound m).
  { intros t [-> | ->].
    - assert (H : CartPole.Qlt_bool m (- bound) = false).
      { apply Qlt_bool_false. eapply Qle_trans; [| exact Hm].
        apply (Qopp_le_compat 0) in Hpos. exact Hpos. }
      rewrite H. apply orb_false_r.
    - assert (H : CartPole.Qlt_bool bound (- m) = false).
      { apply Qlt_bool_false. eapply Qle_trans; [| exact Hpos].
        apply (Qopp_le_compat 0) in Hm. exact Hm. }
      rewrite H. simpl.
      destruct (CartPole.Qlt_bool bound m) eqn:E.
      + apply Qlt_bool_iff. apply Qlt_bool_iff in E.
        now apply Qopp_lt_compat.
      + apply Qlt_bool_false. apply Qlt_bool_false in E.
        now apply Qopp_le_compat. }
  rewrite (Hside t1), (Hside t2); [reflexivity | |].
  - subst t2. destruct (CartPole.Qlt_bool x1 c2); tauto.
  - subst t1. destruct (CartPole.Qlt_bool x1 c1); tauto.
Qed.

Definition moved_cart (scene : CartPole.Scene) (x : Q) : CartPole.Scene :=
  {| CartPole.Cart :=
       CartPole.set_position (CartPole.Cart scene) [[x; 0; 0; 0; 0; 0; 1]];
     CartPole.Pole := CartPole.Pole scene;
     CartPole.CartForce_force := CartPole.CartForce_force scene;
     CartPole.dt := CartPole.dt scene;
     CartPole.applyAction_incr := CartPole.applyAction_incr scene;
     CartPole.animations := CartPole.animations scene |}.

Lemma done_ignores_the_side_witness :
  exists done,
    CartPole.getReward sample_pi sample_asin
      (sample_shaper (Some (CartPole.PyFloat (1 # 10))))
      (sample_cart_pole 1) = CartPole.Return (done, 1) /\
    CartPole.getReward sample_pi sample_asin
      (sample_shaper (Some (CartPole.PyFloat (1 # 10))))
      (moved_cart (sample_cart_pole 1) 4) = CartPole.Return (done, 1).
Proof.
  destruct (CartPole.getReward sample_pi sample_asin
              (sample_shaper (Some (CartPole.PyFloat (1 # 10))))
              (sample_cart_pole 1)) as [[done reward] |] eqn:H1;
    [| vm_compute in H1; discriminate].
  destruct (CartPole.getReward sample_pi sample_asin
              (sample_shaper (Some (CartPole.PyFloat (1 # 10))))
              (moved_cart (sample_cart_pole 1) 4))
    as [[done' reward'] |] eqn:H2;
    [| vm_compute in H2; discriminate].
  destruct (done_ignores_the_side sample_pi sample_asin
              (sample_shaper (Some (CartPole.PyFloat (1 # 10))))
              (sample_cart_pole 1) (moved_cart (sample_cart_pole 1) 4)
              (1 # 10) done done' reward reward' eq_refl)
    as [-> ->]; try assumption; try reflexivity.
  - discriminate.
  - exists done. assert (Hr : reward = 1) by (vm_compute in H1; congruence).
    subst reward. split; reflexivity.
Defined.

(** X15. A [max_angle] that is false as a condition, zero for one, passes the
    constructor, which leaves the attribute unset: [getReward] then never
    returns, and ends with an attribute error once the angle is
    computed. *)
Theorem unset_max_angle_fails_at_the_reward
        (kwargs : list (string * CartPole.value))
        (angle_arg length_arg : CartPole.value) :
  CartPole.lookup kwargs "rootNode" = CartPole.Return CartPole.PyNode ->
  CartPole.lookup kwargs "max_angle" = CartPole.Return angle_arg ->
  CartPole.lookup kwargs "pole_length" = CartPole.Return length_arg ->
  CartPole.truthy angle_arg = false ->
  CartPole.truthy length_arg = true ->
  exists self,
    CartPole.rewardShaper_init kwargs = ([], CartPole.Return self) /\
    forall pi asin scene,
      (exists e, CartPole.getReward pi asin self scene = CartPole.Throw e) /\
      forall cart_pos angles,
        CartPole._getCartPos scene = CartPole.Return cart_pos ->
        CartPole.calculatePoleTheta pi asin self scene cart_pos =
        CartPole.Return angles ->
        CartPole.getReward pi asin self scene =
        CartPole.Throw CartPole.AttributeError.
Proof.
  intros Hroot Hangle Hlength Hfalse Htrue.
  pose proof (rewardShaper_init_returns kwargs
                CartPole.PyNode angle_arg length_arg Hroot Hangle Hlength
                Htrue eq_refl) as Hinit.
  rewrite Hfalse in Hinit.
  eexists. split; [exact Hinit |].
  intros pi asin scene.
  unfold CartPole.getReward, CartPole.rewardShaper_getReward,
    CartPole.and_then.
  split.
  - destruct (CartPole._getCartPos scene) as [cp | e];
      [| now exists e].
    destruct (CartPole.calculatePoleTheta pi asin _ scene cp) as [tt' | e];
      [| now exists e].
    simpl. now exists CartPole.AttributeError.
  - intros cp angles Hcp Hcalc. rewrite Hcp, Hcalc. reflexivity.
Qed.

Lemma unset_max_angle_fails_at_the_reward_witness :
  exists self,
    CartPole.rewardShaper_init
      [("rootNode"%string, CartPole.PyNode);
       ("max_angle"%string, CartPole.PyFloat 0);
       ("pole_length"%string, CartPole.PyFloat 2)] =
    ([], CartPole.Return self) /\
    CartPole.getReward sample_pi sample_asin self (sample_cart_pole 1) =
    CartPole.Throw CartPole.AttributeError.
Proof.
  destruct (unset_max_angle_fails_at_the_reward
              [("rootNode"%string, CartPole.PyNode);
               ("max_angle"%string, CartPole.PyFloat 0);
               ("pole_length"%string, CartPole.PyFloat 2)]
              (CartPole.PyFloat 0) (CartPole.PyFloat 2)
              eq_refl eq_refl eq_refl eq_refl eq_refl)
    as [self [Hinit Hreward]].
  exists self. split; [exact Hinit |].
  vm_compute in Hinit. injection Hinit as <-.
  destruct (Hreward sample_pi sample_asin (sample_cart_pole 1))
    as [_ Hlate].
  eapply Hlate; vm_compute; reflexivity.
Defined.

(** ** Positions *)


(** ** The action *)

(** X20. The command of action 0 is the increment of the controller and the
    command of any other action its opposite. Applying a command writes
    it in the first component of the force of the cart and touches
    nothing else; on a force without component it raises an index error.
    A second command replaces the first. *)
Theorem apply_action_writes_the_command
        (scene scene1 : CartPole.Scene) (actions : Z) :
  CartPole.apply_action scene (CartPole.compute_action scene actions) =
  CartPole.Return scene1 ->
  CartPole.CartForce_force scene1 =
  (if (actions =? 0)%Z then CartPole.applyAction_incr scene
   else - CartPole.applyAction_incr scene)
  :: tl (CartPole.CartForce_force scene) /\
  length (CartPole.CartForce_force scene1) =
  length (CartPole.CartForce_force scene) /\
  CartPole.Cart scene1 = CartPole.Cart scene /\
  CartPole.Pole scene1 = CartPole.Pole scene /\
  CartPole.applyAction_incr scene1 = CartPole.applyAction_incr scene /\
  CartPole.animations scene1 = CartPole.animations scene /\
  forall actions',
    CartPole.apply_action scene1 (CartPole.compute_action scene1 actions') =
    CartPole.apply_action scene (CartPole.compute_action scene actions').
Proof.
  unfold CartPole.apply_action, CartPole._move, CartPole.compute_action.
  destruct (CartPole.CartForce_force scene) as [| f force] eqn:Hf;
    [discriminate |].
  intros H. injection H as <-. simpl. repeat split.
Qed.

Lemma apply_action_writes_the_command_witness :
  exists scene1,
    CartPole.apply_action (sample_cart_pole 1)
      (CartPole.compute_action (sample_cart_pole 1) 1) =
    CartPole.Return scene1 /\
    CartPole.CartForce_force scene1 = [- (1000); 0; 0; 0; 0; 0].
Proof.
  destruct (CartPole.apply_action (sample_cart_pole 1)
              (CartPole.compute_action (sample_cart_pole 1) 1))
    as [scene1 |] eqn:Hrun; [| vm_compute in Hrun; discriminate].
  destruct (apply_action_writes_the_command (sample_cart_pole 1) scene1 1
              Hrun) as [Hforce _].
  exists scene1. split; [reflexivity | exact Hforce].
Defined.

(** [apply_action] raises an index error exactly when the force of the
    cart has no component, and then changes nothing. *)
Theorem apply_action_needs_a_force (scene : CartPole.Scene) (incr : Q) :
  CartPole.apply_action scene incr = CartPole.Throw CartPole.IndexError <->
  CartPole.CartForce_force scene = [].
Proof.
  unfold CartPole.apply_action, CartPole._move.
  destruct (CartPole.CartForce_force scene); split;
    try reflexivity; discriminate.
Qed.

(** ** The command of an animation *)

(** X21. [startCmd] divides the duration by the time step before anything
    else, though the number of steps is used nowhere: with a zero time
    step it raises and adds nothing. Otherwise it adds one animation to
    the manager, of the given duration, that applies the command of the
    action, and leaves the force as it is until the animation runs;
    running it then is applying the action. *)
Theorem startCmd_adds_one_animation
        (scene : CartPole.Scene) (actions : Z) (duration : Q) :
  (CartPole.dt scene == 0 <->
   CartPole.startCmd scene actions duration =
   CartPole.Throw CartPole.ZeroDivisionError) /\
  (~ CartPole.dt scene == 0 ->
   exists scene',
     CartPole.startCmd scene actions duration = CartPole.Return scene' /\
     CartPole.animations scene' =
     CartPole.animations scene ++
     [{| CartPole.anim_incr := CartPole.compute_action scene actions;
         CartPole.anim_duration := duration |}] /\
     CartPole.CartForce_force scene' = CartPole.CartForce_force scene /\
     CartPole.Cart scene' = CartPole.Cart scene /\
     CartPole.Pole scene' = CartPole.Pole scene /\
     forall factor,
       CartPole.executeAnimation scene'
         (CartPole.compute_action scene actions) factor =
       CartPole.apply_action scene'
         (CartPole.compute_action scene' actions)).
Proof.
  unfold CartPole.startCmd. split.
  - destruct (Qeq_bool (CartPole.dt scene) 0) eqn:Hz.
    + apply Qeq_bool_iff in Hz. tauto.
    + split; [| discriminate]. intros H. apply Qeq_bool_iff in H.
      congruence.
  - intros Hnz.
    destruct (Qeq_bool (CartPole.dt scene) 0) eqn:Hz;
      [apply Qeq_bool_iff in Hz; contradiction |].
    eexists. split; [reflexivity |]. repeat split.
Qed.

Lemma startCmd_adds_one_animation_witness :
  exists scene',
    CartPole.startCmd (sample_cart_pole 1) 0 (1 # 2) =
    CartPole.Return scene' /\
    CartPole.animations scene' =
    [{| CartPole.anim_incr := 1000; CartPole.anim_duration := 1 # 2 |}].
Proof.
  destruct (startCmd_adds_one_animation (sample_cart_pole 1) 0 (1 # 2))
    as [_ Hadd].
  destruct Hadd as [scene' [Hrun [Hanim _]]].
  - intros H. vm_compute in H. discriminate.
  - exists scene'. split; [exact Hrun | exact Hanim].
Defined.
